(** * koishi-forward: the forwarding pipeline of [src/core.ts]

    A shallow embedding of the [transform] helper (lines 31-52) and of
    the listener that [apply] registers on [message-created] for each
    rule (lines 94-322), followed by the properties of the pipeline.

    Strings are UTF-8 byte strings; JavaScript objects used as
    dictionaries ([attrs], [ctx.bots], [config.delay]) are finite maps;
    a value that may be [undefined] is an [option].  The listener is an
    [async] function: its collaborators (connector, table, moderation
    endpoint) answer through the environment [Env.t], a rejected promise
    being an answer like any other, and a run is summed up by the effects
    it performs, in order, and by the way it ends. *)

From Stdlib Require Import Ascii String NArith ZArith.
From stdpp Require Import base option list strings gmap.

Open Scope string_scope.
Open Scope list_scope.

(** ** JavaScript values that the code relies on *)

Module JS.

(** A possibly-[undefined] string. *)
Definition truthy (v : option string) : bool :=
  match v with
  | Some s => negb (String.eqb s "")
  | None => false
  end.

(** [a || b] on possibly-undefined strings. *)
Definition or (a b : option string) : option string :=
  if truthy a then a else b.

(** [a ?? b] with a string default. *)
Definition nullish (a : option string) (b : string) : string :=
  match a with
  | Some s => s
  | None => b
  end.

(** A value interpolated in a template literal. *)
Definition interp (v : option string) : string :=
  match v with
  | Some s => s
  | None => "undefined"
  end.

(** [a === b] on strings. *)
Definition seq (a b : string) : bool := String.eqb a b.

End JS.

(** ** Content elements ([h]) *)

(** An element has a type tag, an attribute dictionary and children. *)
Inductive h : Type :=
| El (type : string) (attrs : gmap string string) (children : list h).

Definition type (e : h) : string := let 'El t _ _ := e in t.
Definition attrs (e : h) : gmap string string := let 'El _ a _ := e in a.
Definition children (e : h) : list h := let 'El _ _ c := e in c.

(** [h.text(content)] *)
Definition h_text (content : string) : h :=
  El "text" {[ "content" := content ]} [].

(** [h.quote(id)] *)
Definition h_quote (id : string) : h :=
  El "quote" {[ "id" := id ]} [].

(** [h('author', { name, avatar })]; an undefined attribute is not stored. *)
Definition h_author (name : string) (avatar : option string) : h :=
  El "author"
     (match avatar with
      | Some a => <[ "avatar" := a ]> {[ "name" := name ]}
      | None => {[ "name" := name ]}
      end) [].

(** What a visitor returns: [true] keeps the element and descends into its
    children, [false] or [null] drops it, a fragment replaces it. *)
Inductive vresult : Type :=
| VKeep
| VDrop
| VElems (es : list h).

Definition visitor : Type := gmap string string → list h → vresult.

(** Modelled from the spec: [h.transform] belongs to the Koishi element
    library, which is not under src.  Section 4.2 of the spec describes
    it: the visitor registered for the element's kind decides (else the
    one registered as [default]); with no visitor the element passes
    through unchanged, its children transformed by the same rules.
    [rule_for] is the choice of the visitor. *)
Definition rule_for (rules : gmap string visitor) (t : string) : option visitor :=
  match rules !! t with
  | Some v => Some v
  | None => rules !! "default"
  end.

(** Modelled from the spec: the verdict of [h.transform] on one element,
    to keep it when no visitor applies. *)
Definition visit (rules : gmap string visitor) (t : string)
    (a : gmap string string) (cs : list h) : vresult :=
  match rule_for rules t with
  | Some v => v a cs
  | None => VKeep
  end.

Section Transform.
Variable visit_rules : string → gmap string string → list h → vresult.

(** Modelled from the spec: what [h.transform] puts in its output for one
    element; a kept element has its children transformed in turn. *)
Fixpoint transform_with (e : h) : list h :=
  match e with
  | El t a cs =>
      match visit_rules t a cs with
      | VKeep => [El t a (flat_map transform_with cs)]
      | VDrop => []
      | VElems es => es
      end
  end.
End Transform.

(** Modelled from the spec: [h.transform(source, rules)], absent from src
    with the rest of the Koishi element library. *)
Definition h_transform (source : list h) (rules : gmap string visitor) : list h :=
  flat_map (transform_with (visit rules)) source.

(** The default visitors of [transform] (core.ts, lines 33-48). *)
Definition visit_image : visitor := λ _ _, VDrop.

Definition visit_at : visitor := λ attrs _,
  let name := JS.or (attrs !! "name") (attrs !! "id") in
  VElems [h_text ("@" +:+ JS.interp name)].

Definition visit_face : visitor := λ attrs _,
  let name := JS.or (attrs !! "name") (Some "表情") in
  VElems [h_text ("[" +:+ JS.interp name +:+ "]")].

Definition visit_audio : visitor := λ _ _, VElems [h_text "[语音]"].

Definition default_rules : gmap string visitor :=
  <[ "image" := visit_image ]>
  (<[ "at" := visit_at ]>
  (<[ "face" := visit_face ]>
  (<[ "audio" := visit_audio ]> ∅))).

(** [transform(source, rules)]: the spread [...rules] comes last, so an
    override wins over the default of the same kind. *)
Definition transform (source : list h) (rules : gmap string visitor) : list h :=
  h_transform source (rules ∪ default_rules).

(** ** Strings: [join] and [trim] *)

Definition LF : string := String "010"%char EmptyString.

(** [parts.join(sep)] *)
Definition join (sep : string) (parts : list string) : string :=
  String.concat sep parts.

(** White space in the sense of [String.prototype.trim], on UTF-8 bytes:
    U+0009..U+000D and U+0020 take one byte, U+00A0 two, and U+1680,
    U+2000..U+200A, U+2028, U+2029, U+202F, U+205F, U+3000, U+FEFF three. *)
Definition is_ws1 (a : ascii) : bool :=
  let n := N_of_ascii a in
  ((9 <=? n) && (n <=? 13) || (n =? 32))%N.

Definition is_ws2 (a b : ascii) : bool :=
  ((N_of_ascii a =? 194) && (N_of_ascii b =? 160))%N.

Definition is_ws3 (a b c : ascii) : bool :=
  let x := N_of_ascii a in
  let y := N_of_ascii b in
  let z := N_of_ascii c in
  ((x =? 225) && (y =? 154) && (z =? 128)
   || (x =? 226) && (y =? 128)
      && ((128 <=? z) && (z <=? 138) || (z =? 168) || (z =? 169) || (z =? 175))
   || (x =? 226) && (y =? 129) && (z =? 159)
   || (x =? 227) && (y =? 128) && (z =? 128)
   || (x =? 239) && (y =? 187) && (z =? 191))%N.

(** [!s.trim()]: nothing is left of [s] once the white space is removed,
    that is, [s] is white space throughout. *)
Fixpoint trim_is_empty (s : string) : bool :=
  match s with
  | EmptyString => true
  | String a r1 =>
      if is_ws1 a then trim_is_empty r1
      else
        match r1 with
        | EmptyString => false
        | String b r2 =>
            if is_ws2 a b then trim_is_empty r2
            else
              match r2 with
              | EmptyString => false
              | String c r3 =>
                  if is_ws3 a b c then trim_is_empty r3 else false
              end
        end
  end.

(** ** Configuration ([./config]) *)

(** The declarations of [./config] are not under src; the three records
    below hold the fields that core.ts reads. *)

Module RuleSource.
(** Modelled from the spec: the source endpoint of section 3, [RuleSource]
    of [./config], which is not under src. *)
Record t : Type := mk {
  platform : string;
  selfId : string;
  channelId : string;
  blockingWords : list string;
  onlyQuote : bool;
  name : option string;
}.
End RuleSource.

Module RuleTarget.
(** Modelled from the spec: the target endpoint of section 3, [RuleTarget]
    of [./config], which is not under src. *)
Record t : Type := mk {
  platform : string;
  selfId : string;
  channelId : string;
  disabled : bool;
  simulateOriginal : bool;
}.
End RuleTarget.

Module Config.
(** Modelled from the spec: [Config] of [./config], which is not under
    src, reduced to the per-platform delay map read by the listener. *)
Record t : Type := mk {
  delay : gmap string Z;
}.
End Config.

(** ** Events and sessions (Koishi's [Universal] types) *)

Module User.
Record t : Type := mk {
  id : string;
  name : option string;
  nick : option string;
  avatar : option string;
}.
End User.

Module Member.
Record t : Type := mk {
  nick : option string;
}.
End Member.

(** The quoted message carried by a reply. *)
Module Quote.
Record t : Type := mk {
  id : string;
  user : option User.t;
  elements : option (list h);
  member : option Member.t;
}.
End Quote.

Module Message.
Record t : Type := mk {
  id : string;
  elements : list h;
  quote : option Quote.t;
}.
End Message.

(** A Discord embed, as found in [event._data.d.embeds]. *)
Module Embed.
Record t : Type := mk {
  title : option string;
  description : option string;
}.
End Embed.

Module Event.
Record t : Type := mk {
  platform : string;
  selfId : string;
  channel_id : string;          (* event.channel.id *)
  user : User.t;
  message : Message.t;
  embeds : list Embed.t;        (* event._data.d.embeds *)
}.
End Event.

Module Session.
(** [username] is computed by Koishi from the user and member data. *)
Record t : Type := mk {
  event : Event.t;
  username : string;
}.

(** The getters of Koishi's session that the listener uses; [elements]
    are the elements of the event's message. *)
Definition platform (s : t) : string := Event.platform (event s).
Definition sid (s : t) : string :=
  Event.platform (event s) +:+ ":" +:+ Event.selfId (event s).
Definition channelId (s : t) : string := Event.channel_id (event s).
Definition userId (s : t) : string := User.id (Event.user (event s)).
Definition elements (s : t) : list h := Message.elements (Event.message (event s)).
End Session.

(** ** The relay table [myrtus_forward_sent] *)

Module Sent.
(** The auto-incremented [id] is assigned by the table and never read. *)
Record t : Type := mk {
  from : string;
  to : string;
  from_sid : string;
  to_sid : string;
  from_channel_id : string;
  to_channel_id : string;
  time : Z;
}.
End Sent.

(** The filter object given to [ctx.database.get]: a row matches when
    every field present in the filter is equal. *)
Module Query.
Record t : Type := mk {
  from : option string;
  to : option string;
  from_sid : option string;
  to_sid : option string;
  from_channel_id : option string;
  to_channel_id : option string;
}.

Definition field (q : option string) (v : string) : bool :=
  match q with
  | Some x => String.eqb v x
  | None => true
  end.

Definition matches (q : t) (r : Sent.t) : bool :=
  field (from q) (Sent.from r)
  && field (to q) (Sent.to r)
  && field (from_sid q) (Sent.from_sid r)
  && field (to_sid q) (Sent.to_sid r)
  && field (from_channel_id q) (Sent.from_channel_id r)
  && field (to_channel_id q) (Sent.to_channel_id r).
End Query.

(** [ctx.database.get('myrtus_forward_sent', q)] *)
Definition database_get (db : list Sent.t) (q : Query.t) : list Sent.t :=
  List.filter (Query.matches q) db.

(** ** Collaborators: bots, moderation endpoint, regular expressions *)

(** [Universal.Status] *)
Inductive Status : Type := OFFLINE | ONLINE | CONNECT | DISCONNECT | RECONNECT.

Definition is_online (s : Status) : bool :=
  match s with
  | ONLINE => true
  | _ => false
  end.

Module Bot.
(** [sendMessage channelId payload] gives the ids of the messages
    created, or [None] when the promise rejects. *)
Record t : Type := mk {
  status : Status;
  sendMessage : string → list h → option (list string);
}.
End Bot.

(** A parsed JSON document.  Of a number only its being zero matters
    here. *)
Inductive json : Type :=
| JNull
| JBool (b : bool)
| JNum (n : Z)
| JStr (s : string)
| JArr (items : list json)
| JObj (fields : list (string * json)).

(** How the POST to the moderation endpoint ends. *)
Inductive fetch_result : Type :=
| FetchRejected                        (* connection failure: [fetch] rejects *)
| FetchAborted                         (* the 500 ms timer fired [controller.abort()] *)
| FetchResponse (status : Z) (body : option json).
                                       (* [None]: [response.json()] rejects *)

Module Env.
(** The answers of the collaborators during one run.  Reads and writes
    of the table are taken to succeed, and the clock to stand still. *)
Record t : Type := mk {
  bots : gmap string Bot.t;                        (* ctx.bots *)
  database : list Sent.t;                          (* rows of the table *)
  getMessage : string → string → option (option User.t);
    (* session.bot.getMessage(channelId, id), reduced to the [user] of
       its result; [None] when the promise rejects *)
  fetch : string → string → string → fetch_result; (* from, ctx, context *)
  now : Z;                                         (* new Date() *)
}.
End Env.

(** The engine behind [new RegExp(str)] and [reg.test(str)]. *)
Class RegExpEngine : Type := {
  regexp : Type;
  RegExp_new : string → option regexp;   (* [None]: SyntaxError *)
  RegExp_test : regexp → string → bool;
}.

(** ** What a run of the listener does *)

Inductive warning : Type :=
| BotNotFound (targetSid : string)
| BotNotOnline (targetSid : string)
| CensorUnreachable.

Inductive effect : Type :=
| Warn (w : warning)                                     (* logger.warn *)
| LogError                                               (* logger.error(error) *)
| Sleep (ms : Z)                                         (* ctx.sleep *)
| Send (targetSid channelId : string) (payload : list h) (* bot.sendMessage *)
| Upsert (rows : list Sent.t).                           (* ctx.database.upsert *)

Inductive error : Type :=
| SyntaxError          (* new RegExp on an invalid pattern *)
| GetMessageRejected   (* session.bot.getMessage rejects *)
| TypeError.           (* a property of undefined is read *)

Inductive result (A : Type) : Type :=
| Ok (a : A)
| Throw (e : error).
Arguments Ok {A} a.
Arguments Throw {A} e.

Inductive drop_reason : Type :=
| BlockingWord
| QuoteOnly
| EmptyText.

(** The listener either returns early, runs to its end, or throws; the
    effects performed up to that point are recorded in order. *)
Inductive outcome : Type :=
| Dropped (why : drop_reason)
| Completed (trace : list effect)
| Threw (trace : list effect) (e : error).

Definition trace_of (o : outcome) : list effect :=
  match o with
  | Dropped _ => []
  | Completed tr => tr
  | Threw tr _ => tr
  end.

Definition is_send (e : effect) : bool :=
  match e with
  | Send _ _ _ => true
  | _ => false
  end.

Definition is_upsert (e : effect) : bool :=
  match e with
  | Upsert _ => true
  | _ => false
  end.

(** The deliveries attempted, in order. *)
Definition sends (o : outcome) : list effect := List.filter is_send (trace_of o).

(** The batches of RelayRecords written. *)
Definition upserts (o : outcome) : list effect := List.filter is_upsert (trace_of o).

(** ** Stage 1: blocking words (lines 97-102) *)

Section Listener.
Context `{RegExpEngine}.

Definition hit (reg : regexp) (elements : list h) : bool :=
  existsb (λ v, JS.seq (type v) "text"
                && RegExp_test reg (JS.interp (attrs v !! "content")))
          elements.

Fixpoint blocked (words : list string) (elements : list h) : result bool :=
  match words with
  | [] => Ok false
  | regexpStr :: rest =>
      match RegExp_new regexpStr with
      | None => Throw SyntaxError
      | Some reg => if hit reg elements then Ok true else blocked rest elements
      end
  end.

(** ** Stage 2: quote lookup (lines 104-139) *)

Inductive quote_lookup : Type :=
| QuoteDrop
| QuoteRows (rows : list Sent.t) (quoteUser : option User.t).

(** [quote.user ?? (await session.bot.getMessage(...)).user], followed
    by the read of [quoteUser.id]. *)
Definition quote_author (env : Env.t) (session : Session.t)
    (quote : Quote.t) : result User.t :=
  match Quote.user quote with
  | Some u => Ok u
  | None =>
      match Env.getMessage env (Session.channelId session) (Quote.id quote) with
      | Some (Some u) => Ok u
      | Some None => Throw TypeError
      | None => Throw GetMessageRejected
      end
  end.

(** Rows whose [to] side is the quoted message on this channel. *)
Definition rows_to (env : Env.t) (session : Session.t) (quote : Quote.t) : list Sent.t :=
  database_get (Env.database env)
    {| Query.from := None; Query.to := Some (Quote.id quote);
       Query.from_sid := None; Query.to_sid := Some (Session.sid session);
       Query.from_channel_id := None;
       Query.to_channel_id := Some (Event.channel_id (Session.event session)) |}.

(** Rows whose [from] side is the quoted message on this channel. *)
Definition rows_from (env : Env.t) (session : Session.t) (quote : Quote.t) : list Sent.t :=
  database_get (Env.database env)
    {| Query.from := Some (Quote.id quote); Query.to := None;
       Query.from_sid := Some (Session.sid session); Query.to_sid := None;
       Query.from_channel_id := Some (Event.channel_id (Session.event session));
       Query.to_channel_id := None |}.

Definition quote_stage (env : Env.t) (sConfig : RuleSource.t)
    (session : Session.t) : result quote_lookup :=
  let event := Session.event session in
  match Message.quote (Event.message event) with
  | Some quote =>
      match quote_author env session quote with
      | Throw e => Throw e
      | Ok quoteUser =>
          if JS.seq (Event.selfId event) (User.id quoteUser) then
            let rows := rows_to env session quote in
            if RuleSource.onlyQuote sConfig && (length rows =? 0)%nat
            then Ok QuoteDrop
            else Ok (QuoteRows rows (Some quoteUser))
          else if RuleSource.onlyQuote sConfig then Ok QuoteDrop
          else Ok (QuoteRows (rows_from env session quote) (Some quoteUser))
      end
  | None =>
      if RuleSource.onlyQuote sConfig then Ok QuoteDrop
      else Ok (QuoteRows [] None)
  end.

(** ** Stage 3: transform, embeds, plain text (lines 141-174) *)

(** The override given for the main body: in quote-only mode a mention
    of the bot itself becomes an empty text. *)
Definition visit_at_body (sConfig : RuleSource.t) (event : Event.t) : visitor :=
  λ attrs _,
    if RuleSource.onlyQuote sConfig
       && bool_decide (attrs !! "id" = Some (Event.selfId event))
    then VElems [h_text ""]
    else
      let name := JS.or (attrs !! "name") (attrs !! "id") in
      VElems [h_text ("@" +:+ JS.interp name)].

Definition embed_buffer (embed : Embed.t) : list string :=
  (if JS.truthy (Embed.title embed) then [JS.interp (Embed.title embed)] else [])
  ++ (if JS.truthy (Embed.description embed)
      then [JS.interp (Embed.description embed)] else []).

Definition embed_elements (embeds : list Embed.t) : list h :=
  flat_map (λ embed,
              let buffer := embed_buffer embed in
              if (length buffer =? 0)%nat then [] else [h_text (join LF buffer)])
           embeds.

Definition filteredElements (sConfig : RuleSource.t) (session : Session.t) : list h :=
  let event := Session.event session in
  transform (Message.elements (Event.message event))
            {[ "at" := visit_at_body sConfig event ]}
  ++ (if JS.seq (Session.platform session) "discord"
      then embed_elements (Event.embeds event) else []).

Definition text_content (node : h) : string :=
  if JS.seq (type node) "text" then default "" (attrs node !! "content") else "".

Definition plainText (elements : list h) : string :=
  join "" (map text_content elements).

(** ** Stage 4: moderation (lines 176-206) *)

(** [response.ok] *)
Definition response_ok (status : Z) : bool :=
  ((200 <=? status) && (status <=? 299))%Z.

Definition json_truthy (data : json) : bool :=
  match data with
  | JNull => false
  | JBool b => b
  | JNum n => negb (n =? 0)%Z
  | JStr s => negb (String.eqb s "")
  | JArr _ | JObj _ => true
  end.

(** [obj[key]] on a parsed object: the last occurrence of a key wins. *)
Fixpoint json_field (key : string) (fields : list (string * json)) : option json :=
  match fields with
  | [] => None
  | (k, v) :: rest =>
      match json_field key rest with
      | Some v' => Some v'
      | None => if String.eqb k key then Some v else None
      end
  end.

(** [data.context] *)
Definition json_context (data : json) : option json :=
  match data with
  | JObj fields => json_field "context" fields
  | _ => None
  end.

(** The [try] block: the text to deliver and what is logged. *)
Definition moderate (plainText : string) (r : fetch_result) : string * list effect :=
  match r with
  | FetchRejected | FetchAborted => (plainText, [Warn CensorUnreachable])
  | FetchResponse status body =>
      if response_ok status then
        match body with
        | Some data =>
            if json_truthy data then
              match json_context data with
              | Some (JStr context) => (context, [])
              | _ => (plainText, [])
              end
            else (plainText, [])
        | None => (plainText, [])
        end
      else (plainText, [])
  end.

(** ** Stage 5: fan-out (lines 208-316) *)

Definition targetSid (target : RuleTarget.t) : string :=
  RuleTarget.platform target +:+ ":" +:+ RuleTarget.selfId target.

Definition default_avatar : string :=
  "https://discord.com/assets/5d6a5e9d7d77ac29116e.png".

Definition prefix (sConfig : RuleSource.t) (session : Session.t)
    (target : RuleTarget.t) : h :=
  let event := Session.event session in
  if RuleTarget.simulateOriginal target
     && JS.seq (RuleTarget.platform target) "discord"
  then
    let avatar :=
      if JS.seq (Event.platform event) "telegram"
      then Some default_avatar
      else User.avatar (Event.user event) in
    h_author ("[" +:+ JS.nullish (RuleSource.name sConfig) "" +:+ "] "
              +:+ Session.username session) avatar
  else
    let altName :=
      if JS.truthy (RuleSource.name sConfig)
      then JS.interp (RuleSource.name sConfig) +:+ " - "
      else "" in
    h_text ("[" +:+ altName +:+ Session.username session +:+ "]" +:+ LF).

(** The row picked by [rows.find] for this target, and the id taken
    from it. *)
Definition quoteId (event : Event.t) (quoteUser : User.t)
    (rows : list Sent.t) (target : RuleTarget.t) : option string :=
  if JS.seq (Event.selfId event) (User.id quoteUser) then
    Sent.from <$>
      List.find (λ v, JS.seq (Sent.from_sid v) (targetSid target)
                      && JS.seq (Sent.from_channel_id v) (RuleTarget.channelId target))
                rows
  else
    Sent.to <$>
      List.find (λ v, JS.seq (Sent.to_sid v) (targetSid target)
                      && JS.seq (Sent.to_channel_id v) (RuleTarget.channelId target))
                rows.

(** The textual rendering of the quoted message. *)
Definition fallback (name : option string) (elements : list h) : list h :=
  [h_text ("Re " +:+ JS.interp name +:+ " ⌈")]
  ++ transform elements ∅
  ++ [h_text ("⌋" +:+ LF)].

Definition payload_for (sConfig : RuleSource.t) (session : Session.t)
    (rows : list Sent.t) (quoteUser : option User.t) (finalText : string)
    (target : RuleTarget.t) : result (list h) :=
  let event := Session.event session in
  let pfx := prefix sConfig session target in
  let payload := [pfx; h_text finalText] in
  match Message.quote (Event.message event) with
  | None => Ok payload
  | Some quote =>
      match quoteUser with
      | None => Throw TypeError
      | Some qu =>
          let quoteId := quoteId event qu rows target in
          if JS.truthy quoteId then
            if JS.seq (type pfx) "author"
            then Ok [pfx; h_quote (JS.interp quoteId); h_text finalText]
            else Ok (h_quote (JS.interp quoteId) :: payload)
          else
            let elements := default [] (Quote.elements quote) in
            let nick := Quote.member quote ≫= Member.nick in
            if JS.truthy nick then Ok (fallback nick elements ++ payload)
            else
              match Quote.user quote with
              | None => Throw TypeError
              | Some qUser =>
                  Ok (fallback (JS.or (User.nick qUser) (User.name qUser)) elements
                      ++ payload)
              end
      end
  end.

(** The effects of a stretch of the loop, the rows staged in it, and
    the exception that ended it, if any. *)
Definition run : Type := list effect * list Sent.t * option error.

Definition sentRow (env : Env.t) (session : Session.t) (target : RuleTarget.t)
    (msgId : string) : Sent.t :=
  let event := Session.event session in
  {| Sent.from := Message.id (Event.message event);
     Sent.from_sid := Event.platform event +:+ ":" +:+ Event.selfId event;
     Sent.to := msgId;
     Sent.to_sid := targetSid target;
     Sent.from_channel_id := Event.channel_id event;
     Sent.to_channel_id := RuleTarget.channelId target;
     Sent.time := Env.now env |}.

(** One iteration of the loop over [targetConfigs]. *)
Definition deliver (env : Env.t) (config : Config.t) (sConfig : RuleSource.t)
    (session : Session.t) (rows : list Sent.t) (quoteUser : option User.t)
    (finalText : string) (index : nat) (target : RuleTarget.t) : run :=
  match Env.bots env !! targetSid target with
  | None => ([Warn (BotNotFound (targetSid target))], [], None)
  | Some bot =>
      if negb (is_online (Bot.status bot))
      then ([Warn (BotNotOnline (targetSid target))], [], None)
      else
        let delay := default 200%Z (Config.delay config !! RuleTarget.platform target) in
        let pace := if (index =? 0)%nat then [] else [Sleep delay] in
        match payload_for sConfig session rows quoteUser finalText target with
        | Throw e => (pace, [], Some e)
        | Ok payload =>
            let send := Send (targetSid target) (RuleTarget.channelId target) payload in
            match Bot.sendMessage bot (RuleTarget.channelId target) payload with
            | Some messageIds =>
                (pace ++ [send], map (sentRow env session target) messageIds, None)
            | None => (pace ++ [send; LogError], [], None)
            end
        end
  end.

Fixpoint fanout (env : Env.t) (config : Config.t) (sConfig : RuleSource.t)
    (session : Session.t) (rows : list Sent.t) (quoteUser : option User.t)
    (finalText : string) (index : nat) (targetConfigs : list RuleTarget.t) : run :=
  match targetConfigs with
  | [] => ([], [], None)
  | target :: rest =>
      match deliver env config sConfig session rows quoteUser finalText index target with
      | (tr, sentRows, Some e) => (tr, sentRows, Some e)
      | (tr, sentRows, None) =>
          let '(tr', sentRows', e) :=
            fanout env config sConfig session rows quoteUser finalText (S index) rest in
          (tr ++ tr', sentRows ++ sentRows', e)
      end
  end.

(** Fan-out followed by the batch upsert (lines 318-321). *)
Definition dispatch (env : Env.t) (config : Config.t) (sConfig : RuleSource.t)
    (targetConfigs : list RuleTarget.t) (session : Session.t)
    (rows : list Sent.t) (quoteUser : option User.t)
    (logged : list effect) (finalText : string) : outcome :=
  match fanout env config sConfig session rows quoteUser finalText 0 targetConfigs with
  | (tr, _, Some e) => Threw (logged ++ tr) e
  | (tr, sentRows, None) =>
      Completed (logged ++ tr
                 ++ if (length sentRows =? 0)%nat then [] else [Upsert sentRows])
  end.

(** ** The listener on [message-created] (lines 94-322) *)

Definition listener (env : Env.t) (config : Config.t) (sConfig : RuleSource.t)
    (targetConfigs : list RuleTarget.t) (session : Session.t) : outcome :=
  let event := Session.event session in
  match blocked (RuleSource.blockingWords sConfig) (Session.elements session) with
  | Throw e => Threw [] e
  | Ok true => Dropped BlockingWord
  | Ok false =>
      match quote_stage env sConfig session with
      | Throw e => Threw [] e
      | Ok QuoteDrop => Dropped QuoteOnly
      | Ok (QuoteRows rows quoteUser) =>
          let plainText := plainText (filteredElements sConfig session) in
          if trim_is_empty plainText then Dropped EmptyText
          else
            let '(finalText, logged) :=
              moderate plainText
                (Env.fetch env (Session.userId session) (Event.channel_id event)
                           plainText) in
            dispatch env config sConfig targetConfigs session rows quoteUser
                     logged finalText
      end
  end.
End Listener.

(** ** A sample regular-expression engine

    Enough of an engine to run the listener on examples: a pattern made
    of ordinary characters matches the strings that contain it, and the
    pattern [(], which JavaScript rejects, does not compile. *)

Fixpoint contains (pattern s : string) : bool :=
  String.prefix pattern s
  || match s with
     | EmptyString => false
     | String _ rest => contains pattern rest
     end.

#[export] Instance literal_engine : RegExpEngine := {|
  regexp := string;
  RegExp_new := λ pattern, if String.eqb pattern "(" then None else Some pattern;
  RegExp_test := contains;
|}.

(** * Notions used in the statements *)

(** ** Induction over elements and their children *)

Section ElementInduction.
Variable P : h → Prop.
Hypothesis step : ∀ t a cs, Forall P cs → P (El t a cs).

Fixpoint h_nested_ind (e : h) : P e :=
  match e with
  | El t a cs =>
      step t a cs
        ((fix all (l : list h) : Forall P l :=
            match l with
            | [] => @List.Forall_nil h P
            | c :: l' => @List.Forall_cons h P c l' (h_nested_ind c) (all l')
            end) cs)
  end.
End ElementInduction.

(** ** Predicates on elements, sessions and responses *)

(** Every node of the element is a text node. *)
Fixpoint all_text (e : h) : bool :=
  match e with
  | El t _ cs => JS.seq t "text" && forallb all_text cs
  end.

(** The kinds that [transform] has a visitor for. *)
Definition visited (t : string) : bool :=
  JS.seq t "image" || JS.seq t "at" || JS.seq t "face" || JS.seq t "audio".

(** No node of the element is of a visited kind. *)
Fixpoint settled (e : h) : bool :=
  match e with
  | El t _ cs => negb (visited t) && forallb settled cs
  end.

Section Notions.
Context `{RegExpEngine}.

(** The message gets as far as the moderation call, with the rows and
    the quoted author found on the way. *)
Definition reaches_moderation (env : Env.t) (sConfig : RuleSource.t)
    (session : Session.t) (rows : list Sent.t) (quoteUser : option User.t) : Prop :=
  blocked (RuleSource.blockingWords sConfig) (Session.elements session) = Ok false
  ∧ quote_stage env sConfig session = Ok (QuoteRows rows quoteUser)
  ∧ trim_is_empty (plainText (filteredElements sConfig session)) = false.
End Notions.

(** The name used by the textual rendering of the quote can be read:
    the member has a nick, or the quote carries its author. *)
Definition fallback_name_known (session : Session.t) : bool :=
  match Message.quote (Event.message (Session.event session)) with
  | None => true
  | Some quote =>
      JS.truthy (Quote.member quote ≫= Member.nick)
      || bool_decide (is_Some (Quote.user quote))
  end.

(** The POST did not yield a parsed body from a 2xx response. *)
Definition moderation_failed (r : fetch_result) : bool :=
  match r with
  | FetchRejected | FetchAborted => true
  | FetchResponse status body =>
      negb (response_ok status) || bool_decide (body = None)
  end.

(** The lookup as section 4.4 of the specification words it: rows whose
    source message is the quoted one when the bot is the quoted author,
    rows whose target message is the quoted one otherwise. *)
Definition spec_lookup (env : Env.t) (session : Session.t) (quote : Quote.t)
    (quoteUser : User.t) : list Sent.t :=
  if JS.seq (Event.selfId (Session.event session)) (User.id quoteUser)
  then rows_from env session quote
  else rows_to env session quote.

(** The avatar of the author marker as section 4.5 of the specification
    words it: the sender's, and the default one when the event carries
    none. *)
Definition spec_avatar (event : Event.t) : option string :=
  match User.avatar (Event.user event) with
  | Some avatar => Some avatar
  | None => Some default_avatar
  end.

(** What [logger.error] adds after a send, and the rows a send stages. *)
Definition on_failure (sent : option (list string)) : list effect :=
  match sent with
  | Some _ => []
  | None => [LogError]
  end.

Definition staged (env : Env.t) (session : Session.t) (target : RuleTarget.t)
    (sent : option (list string)) : list Sent.t :=
  match sent with
  | Some messageIds => map (sentRow env session target) messageIds
  | None => []
  end.

(** The text elements that one embed contributes. *)
Definition embed_text (embed : Embed.t) : list h :=
  match JS.truthy (Embed.title embed), JS.truthy (Embed.description embed) with
  | true, true =>
      [h_text (JS.interp (Embed.title embed) +:+ LF
               +:+ JS.interp (Embed.description embed))]
  | true, false => [h_text (JS.interp (Embed.title embed))]
  | false, true => [h_text (JS.interp (Embed.description embed))]
  | false, false => []
  end.

(** * Sample data *)

(** ** A relay between a QQ group and a Discord channel

    The data of the examples: message [m1] of the QQ channel [c1] was
    relayed to the Discord channel [c2] as [t1], and somebody on Discord
    now replies to [t1]. *)

Module Sample.
Definition relay : Sent.t :=
  {| Sent.from := "m1"; Sent.to := "t1";
     Sent.from_sid := "qq:100"; Sent.to_sid := "discord:200";
     Sent.from_channel_id := "c1"; Sent.to_channel_id := "c2";
     Sent.time := 0 |}.

Definition bot_user : User.t :=
  {| User.id := "200"; User.name := Some "relay"; User.nick := None;
     User.avatar := None |}.

Definition alice : User.t :=
  {| User.id := "7"; User.name := Some "alice"; User.nick := None;
     User.avatar := Some "https://cdn.example/alice.png" |}.

Definition quote_of (id : string) (user : option User.t) : Quote.t :=
  {| Quote.id := id; Quote.user := user;
     Quote.elements := Some [h_text "orig"]; Quote.member := None |}.

Definition session_of (platform selfId channel : string)
    (elements : list h) (quote : option Quote.t) (embeds : list Embed.t) : Session.t :=
  {| Session.event :=
       {| Event.platform := platform; Event.selfId := selfId;
          Event.channel_id := channel; Event.user := alice;
          Event.message :=
            {| Message.id := "m9"; Message.elements := elements;
               Message.quote := quote |};
          Event.embeds := embeds |};
     Session.username := "alice" |}.

(** A reply on Discord to the relayed message [t1]. *)
Definition reply : Session.t :=
  session_of "discord" "200" "c2" [h_text "hi"]
             (Some (quote_of "t1" (Some bot_user))) [].

Definition source_of (onlyQuote : bool) : RuleSource.t :=
  {| RuleSource.platform := "discord"; RuleSource.selfId := "200";
     RuleSource.channelId := "c2"; RuleSource.blockingWords := ["spam"];
     RuleSource.onlyQuote := onlyQuote; RuleSource.name := Some "DC" |}.

Definition target_of (platform selfId channel : string) (simulate : bool) : RuleTarget.t :=
  {| RuleTarget.platform := platform; RuleTarget.selfId := selfId;
     RuleTarget.channelId := channel; RuleTarget.disabled := false;
     RuleTarget.simulateOriginal := simulate |}.

(** The QQ channel that [m1] came from. *)
Definition qq : RuleTarget.t := target_of "qq" "100" "c1" false.

Definition bot_of (status : Status) (ids : option (list string)) : Bot.t :=
  {| Bot.status := status; Bot.sendMessage := λ _ _, ids |}.

Definition env_of (bots : gmap string Bot.t) (db : list Sent.t)
    (fetched : option (option User.t)) (censor : fetch_result) : Env.t :=
  {| Env.bots := bots; Env.database := db;
     Env.getMessage := λ _ _, fetched;
     Env.fetch := λ _ _ _, censor; Env.now := 0 |}.

Definition env : Env.t :=
  env_of {[ "qq:100" := bot_of ONLINE (Some ["n1"]) ]} [relay] None FetchRejected.

Definition config : Config.t := {| Config.delay := ∅ |}.
End Sample.

(** A quote-only endpoint, a reply to somebody who is not the bot, and a
    table with records on both sides of the quoted message: the reply is
    dropped all the same. *)
Module QuoteOnlySample.
Definition other : Sent.t :=
  {| Sent.from := "t1"; Sent.to := "u1";
     Sent.from_sid := "discord:200"; Sent.to_sid := "qq:100";
     Sent.from_channel_id := "c2"; Sent.to_channel_id := "c1";
     Sent.time := 0 |}.

Definition env : Env.t :=
  Sample.env_of {[ "qq:100" := Sample.bot_of ONLINE (Some ["n1"]) ]}
                [Sample.relay; other] None FetchRejected.

Definition quote : Quote.t := Sample.quote_of "t1" (Some Sample.alice).

Definition reply : Session.t :=
  Sample.session_of "discord" "200" "c2" [h_text "hi"] (Some quote) [].
End QuoteOnlySample.

(** Three targets, the second without a bot. *)
Module FanoutSample.
Definition kook : RuleTarget.t := Sample.target_of "kook" "1" "k1" false.
Definition telegram : RuleTarget.t := Sample.target_of "telegram" "300" "g1" false.

Definition env : Env.t :=
  Sample.env_of {[ "qq:100" := Sample.bot_of ONLINE (Some ["n1"]);
                   "telegram:300" := Sample.bot_of ONLINE (Some ["n2"]) ]}
                [] None FetchRejected.

Definition config : Config.t := {| Config.delay := {[ "telegram" := 350%Z ]} |}.

Definition message : Session.t :=
  Sample.session_of "discord" "200" "c2" [h_text "hi"] None [].

Definition payload : list h := [h_text ("[DC - alice]" +:+ LF); h_text "hi"].
End FanoutSample.

(** Messages relayed to a Discord channel that simulates the author: one
    from Telegram, whose sender has an avatar, and one from QQ, whose
    sender has none. *)
Module PrefixSample.
Definition discord : RuleTarget.t := Sample.target_of "discord" "201" "c3" true.

Definition from_telegram : Session.t :=
  Sample.session_of "telegram" "300" "g1" [h_text "hi"] None [].

Definition bob : User.t :=
  {| User.id := "8"; User.name := Some "bob"; User.nick := None;
     User.avatar := None |}.

Definition from_qq : Session.t :=
  {| Session.event :=
       {| Event.platform := "qq"; Event.selfId := "100";
          Event.channel_id := "c1"; Event.user := bob;
          Event.message :=
            {| Message.id := "m9"; Message.elements := [h_text "hi"];
               Message.quote := None |};
          Event.embeds := [] |};
     Session.username := "bob" |}.
End PrefixSample.

(** A Discord message whose only text is in an embed. *)
Module EmbedSample.
Definition news : Embed.t :=
  {| Embed.title := Some "News"; Embed.description := Some "Body" |}.

(** A Discord message made of an image and an embed. *)
Definition message : Session.t :=
  Sample.session_of "discord" "200" "c2" [El "image" ∅ []] None [news].

Definition text : string := "News" +:+ LF +:+ "Body".
End EmbedSample.

(** * Rule resolution (lines 76-92) *)

Module Rule.
(** Modelled from the spec: a forwarding rule of section 3, an element of
    [config.rules] in [./config], which is not under src. *)
Record t : Type := mk {
  source : string;
  targets : list string;
}.
End Rule.

Module Constants.
(** Modelled from the spec: [config.constants] of [./config], which is
    not under src, as it is read under each of the two casts of core.ts:
    [sources] holds the entries read [as RuleSource], [targets] those
    read [as RuleTarget]. *)
Record t : Type := mk {
  sources : gmap string RuleSource.t;
  targets : gmap string RuleTarget.t;
}.
End Constants.

(** The inner loop: the targets of the rule that are defined and not
    disabled, in the order of the rule. *)
Definition resolve_targets (constants : Constants.t) (rule : Rule.t) : list RuleTarget.t :=
  omap (λ target,
          match Constants.targets constants !! target with
          | Some targetConfig =>
              if RuleTarget.disabled targetConfig then None else Some targetConfig
          | None => None
          end)
       (Rule.targets rule).

(** One turn of the outer loop: the source and the targets a listener is
    registered with, or [None] when the turn ends on a [continue]. *)
Definition binding (constants : Constants.t) (rule : Rule.t)
    : option (RuleSource.t * list RuleTarget.t) :=
  match Constants.sources constants !! Rule.source rule with
  | None => None
  | Some sConfig =>
      let targetConfigs := resolve_targets constants rule in
      if (length targetConfigs =? 0)%nat then None else Some (sConfig, targetConfigs)
  end.

(** The listeners registered by [apply], in the order of [config.rules]. *)
Definition bindings (constants : Constants.t) (rules : list Rule.t)
    : list (RuleSource.t * list RuleTarget.t) :=
  omap (binding constants) rules.

(** * Further notions used in the statements *)

(** The kinds of top-level element that end up as text: text itself and
    the kinds that [transform] renders as text. *)
Definition textual (t : string) : bool :=
  JS.seq t "text" || JS.seq t "at" || JS.seq t "face" || JS.seq t "audio".

(** The target has no bot, or a bot that is not online. *)
Definition unavailable (env : Env.t) (target : RuleTarget.t) : bool :=
  match Env.bots env !! targetSid target with
  | None => true
  | Some bot => negb (is_online (Bot.status bot))
  end.

(** The warning logged for a target that is skipped. *)
Definition skip_warning (env : Env.t) (target : RuleTarget.t) : effect :=
  Warn (match Env.bots env !! targetSid target with
        | None => BotNotFound (targetSid target)
        | Some _ => BotNotOnline (targetSid target)
        end).

(** The rules given to [transform] for the body of the message. *)
Definition body_rules (sConfig : RuleSource.t) (event : Event.t) : gmap string visitor :=
  {[ "at" := visit_at_body sConfig event ]}.

(** The pacing delay before the delivery to the target at [index]. *)
Definition pace (config : Config.t) (index : nat) (target : RuleTarget.t) : list effect :=
  if (index =? 0)%nat then []
  else [Sleep (default 200%Z (Config.delay config !! RuleTarget.platform target))].

(** The name shown by the textual rendering of a quote:
    [member?.nick || qUser.nick || qUser.name], where it can be read. *)
Definition quote_name (quote : Quote.t) : option string :=
  let nick := Quote.member quote ≫= Member.nick in
  if JS.truthy nick then nick
  else
    match Quote.user quote with
    | Some qUser => JS.or (User.nick qUser) (User.name qUser)
    | None => None
    end.

(** A blocking word that compiles and does not hit. *)
Definition lets_through `{RegExpEngine} (elements : list h) (word : string) : Prop :=
  ∃ reg, RegExp_new word = Some reg ∧ hit reg elements = false.

(** * Sample data for the further properties *)

(** A reply whose quote lacks its author, relayed to two targets of which
    only the first has a record for the quoted message. *)
Module ThrowSample.
Definition env : Env.t :=
  Sample.env_of {[ "qq:100" := Sample.bot_of ONLINE (Some ["n1"]);
                   "kook:1" := Sample.bot_of ONLINE (Some ["n3"]) ]}
                [Sample.relay] (Some (Some Sample.bot_user)) FetchRejected.

Definition reply : Session.t :=
  Sample.session_of "discord" "200" "c2" [h_text "hi"]
                    (Some (Sample.quote_of "t1" None)) [].

Definition targets : list RuleTarget.t := [Sample.qq; FanoutSample.kook].
End ThrowSample.

(** A reply, on the QQ channel, to the message [m1] that was relayed. *)
Module ForwardSample.
Definition quote : Quote.t := Sample.quote_of "m1" (Some Sample.alice).

Definition reply : Session.t :=
  Sample.session_of "qq" "100" "c1" [h_text "again"] (Some quote) [].

Definition source : RuleSource.t :=
  {| RuleSource.platform := "qq"; RuleSource.selfId := "100";
     RuleSource.channelId := "c1"; RuleSource.blockingWords := [];
     RuleSource.onlyQuote := false; RuleSource.name := Some "QQ" |}.

Definition discord : RuleTarget.t := Sample.target_of "discord" "200" "c2" false.
End ForwardSample.

(** A moderation service that answers with an empty text, and one without
    any record or bot. *)
Module ModerationSample.
Definition blank : fetch_result :=
  FetchResponse 200 (Some (JObj [("context", JStr "")])).

Definition env : Env.t :=
  Sample.env_of {[ "qq:100" := Sample.bot_of ONLINE (Some ["n1"]) ]} [] None blank.
End ModerationSample.

Module EmptySample.
Definition env : Env.t := Sample.env_of ∅ [] None FetchRejected.

Definition env_online : Env.t :=
  Sample.env_of {[ "qq:100" := Sample.bot_of ONLINE (Some ["n1"]) ]} [] None FetchRejected.

(** A QQ message whose text is wrapped in a paragraph element. *)
Definition wrapped : Session.t :=
  Sample.session_of "qq" "100" "c1" [El "p" ∅ [h_text "hello"]] None [].

(** A source whose second blocking word is not a regular expression. *)
Definition source : RuleSource.t :=
  {| RuleSource.platform := "discord"; RuleSource.selfId := "200";
     RuleSource.channelId := "c2"; RuleSource.blockingWords := ["spam"; "("];
     RuleSource.onlyQuote := false; RuleSource.name := Some "DC" |}.
End EmptySample.

(** The environment with another answer of [getMessage]. *)
Definition with_getMessage (env : Env.t)
    (getMessage : string → string → option (option User.t)) : Env.t :=
  {| Env.bots := Env.bots env; Env.database := Env.database env;
     Env.getMessage := getMessage;
     Env.fetch := Env.fetch env; Env.now := Env.now env |}.

(** A top-level text element whose content is white space. *)
Definition blank_text (e : h) : Prop :=
  type e = "text" ∧ ∃ content, attrs e !! "content" = Some content
                               ∧ trim_is_empty content = true.


(** * Properties *)

(** ** The content transform *)

Lemma seq_true a b : JS.seq a b = true ↔ a = b.
Proof. apply String.eqb_eq. Qed.

Lemma seq_false a b : JS.seq a b = false ↔ a ≠ b.
Proof. apply String.eqb_neq. Qed.

Lemma text_is_kept a cs : visit (∅ ∪ default_rules) "text" a cs = VKeep.
Proof. rewrite (left_id_L ∅ (∪)). reflexivity. Qed.

Lemma flat_map_id_on {A} (f : A → list A) (l : list A) :
  Forall (λ x, f x = [x]) l → flat_map f l = l.
Proof. induction 1 as [|x l Hx _ IH]; simpl; [done|]. by rewrite Hx, IH. Qed.

Lemma transform_text_node (e : h) :
  all_text e = true → transform_with (visit (∅ ∪ default_rules)) e = [e].
Proof.
  induction e as [t a cs IH] using h_nested_ind. simpl.
  intros [Ht Hcs]%andb_true_iff. apply seq_true in Ht. subst t.
  rewrite text_is_kept. f_equal. f_equal.
  apply flat_map_id_on. rewrite forallb_forall in Hcs.
  rewrite Forall_forall in IH |- *.
  intros c Hc. apply IH; [done|]. apply Hcs. by apply list_elem_of_In.
Qed.

(** C8. Transforming, with no override, a sequence in which every element
    is a text element gives the same sequence back: text has no visitor
    and passes through unchanged. *)
Theorem transform_text_only_noop (source : list h) :
  forallb all_text source = true → transform source ∅ = source.
Proof.
  intros Hall. unfold transform, h_transform. apply flat_map_id_on.
  rewrite forallb_forall in Hall. apply Forall_forall.
  intros e He. apply transform_text_node, Hall. by apply list_elem_of_In.
Qed.

Lemma transform_text_only_noop_witness :
  forallb all_text [h_text "hello"; h_text "[语音]"] = true
  ∧ transform [h_text "hello"; h_text "[语音]"] ∅ = [h_text "hello"; h_text "[语音]"].
Proof.
  split; [reflexivity|].
  apply (transform_text_only_noop [h_text "hello"; h_text "[语音]"]). reflexivity.
Defined.

(** Beyond text: an element of a kind without visitor is kept, and
    what [transform] returns has no visited kind left, so that a second
    pass changes nothing. *)

Lemma rule_for_unvisited (t : string) :
  visited t = false → rule_for (∅ ∪ default_rules) t = None.
Proof.
  unfold visited. rewrite !orb_false_iff, !seq_false. intros [[[Hi Ha] Hf] Hu].
  rewrite (left_id_L ∅ (∪)). unfold rule_for, default_rules.
  rewrite !lookup_insert_ne by done. rewrite lookup_empty. reflexivity.
Qed.

Lemma transform_settled (e : h) :
  settled e = true → transform_with (visit (∅ ∪ default_rules)) e = [e].
Proof.
  induction e as [t a cs IH] using h_nested_ind. simpl.
  intros [Ht Hcs]%andb_true_iff. apply negb_true_iff in Ht.
  unfold visit. rewrite (rule_for_unvisited t Ht). f_equal. f_equal.
  apply flat_map_id_on. rewrite forallb_forall in Hcs.
  rewrite Forall_forall in IH |- *.
  intros c Hc. apply IH; [done|]. apply Hcs. by apply list_elem_of_In.
Qed.

Lemma visit_visited (t : string) a cs :
  visited t = true →
  visit (∅ ∪ default_rules) t a cs = VDrop
  ∨ ∃ content, visit (∅ ∪ default_rules) t a cs = VElems [h_text content].
Proof.
  unfold visited. rewrite !orb_true_iff, !seq_true.
  intros [[[->| ->]| ->]| ->]; [by left|right..]; by eexists.
Qed.

Lemma forallb_flat_map {A B} (p : B → bool) (f : A → list B) (l : list A) :
  Forall (λ x, forallb p (f x) = true) l → forallb p (flat_map f l) = true.
Proof.
  induction 1 as [|x l Hx _ IH]; simpl; [done|].
  by rewrite forallb_app, Hx, IH.
Qed.

Lemma transform_with_settles (e : h) :
  forallb settled (transform_with (visit (∅ ∪ default_rules)) e) = true.
Proof.
  induction e as [t a cs IH] using h_nested_ind. simpl.
  destruct (visited t) eqn:Ht.
  - destruct (visit_visited t a cs Ht) as [->|[content ->]]; reflexivity.
  - unfold visit. rewrite (rule_for_unvisited t Ht). simpl. rewrite Ht. simpl.
    rewrite andb_true_r. by apply forallb_flat_map.
Qed.

(** X2. [transform] without rules is idempotent: a second pass over its
    own output changes nothing. *)
Lemma transform_idempotent (source : list h) :
  transform (transform source ∅) ∅ = transform source ∅.
Proof.
  unfold transform, h_transform. apply flat_map_id_on. apply Forall_forall.
  intros e He. apply transform_settled.
  apply list_elem_of_In, in_flat_map in He as (x & _ & Hx).
  pose proof (transform_with_settles x) as Hall.
  rewrite forallb_forall in Hall. by apply Hall.
Qed.

(** ** Quote lookup: which side of the table is searched *)

Lemma rows_to_In env session quote r :
  In r (rows_to env session quote) ↔
  In r (Env.database env)
  ∧ Sent.to r = Quote.id quote
  ∧ Sent.to_sid r = Session.sid session
  ∧ Sent.to_channel_id r = Event.channel_id (Session.event session).
Proof.
  unfold rows_to, database_get. rewrite filter_In. unfold Query.matches. simpl.
  rewrite !andb_true_iff, !String.eqb_eq. tauto.
Qed.

Lemma rows_from_In env session quote r :
  In r (rows_from env session quote) ↔
  In r (Env.database env)
  ∧ Sent.from r = Quote.id quote
  ∧ Sent.from_sid r = Session.sid session
  ∧ Sent.from_channel_id r = Event.channel_id (Session.event session).
Proof.
  unfold rows_from, database_get. rewrite filter_In. unfold Query.matches. simpl.
  rewrite !andb_true_iff, !String.eqb_eq. tauto.
Qed.

Lemma length_eqb_0 {A} (l : list A) : (length l =? 0)%nat = true ↔ l = [].
Proof. destruct l; simpl; split; congruence. Qed.

(** On the reply to the relayed message [t1] the listener finds the relay
    record, by its target side; the lookup by source side that the claim
    words finds nothing. *)
Lemma quote_lookup_direction_counterexample :
  quote_stage Sample.env (Sample.source_of false) Sample.reply
    = Ok (QuoteRows [Sample.relay] (Some Sample.bot_user))
  ∧ spec_lookup Sample.env Sample.reply (Sample.quote_of "t1" (Some Sample.bot_user))
                Sample.bot_user = [].
Proof. split; reflexivity. Qed.

(** C1 (amended). For a reply whose quoted author is resolved: if the
    author is the bot, the rows looked up are those of the table whose
    target message id, target instance and target channel are the quoted
    id, this instance and this channel (and a quote-only endpoint drops the
    message when there is none); if the author is somebody else and the
    endpoint is not quote-only, the rows are those whose source message
    id, source instance and source channel match. *)
Theorem quote_lookup_direction env sConfig session quote quoteUser :
  Message.quote (Event.message (Session.event session)) = Some quote →
  quote_author env session quote = Ok quoteUser →
  (Event.selfId (Session.event session) = User.id quoteUser →
     (quote_stage env sConfig session
        = Ok (QuoteRows (rows_to env session quote) (Some quoteUser))
      ∧ (RuleSource.onlyQuote sConfig = true → rows_to env session quote ≠ []))
     ∨ (quote_stage env sConfig session = Ok QuoteDrop
        ∧ RuleSource.onlyQuote sConfig = true
        ∧ rows_to env session quote = []))
  ∧ (Event.selfId (Session.event session) ≠ User.id quoteUser →
     RuleSource.onlyQuote sConfig = false →
     quote_stage env sConfig session
       = Ok (QuoteRows (rows_from env session quote) (Some quoteUser)))
  ∧ (∀ r, In r (rows_to env session quote) ↔
          In r (Env.database env)
          ∧ Sent.to r = Quote.id quote
          ∧ Sent.to_sid r = Session.sid session
          ∧ Sent.to_channel_id r = Event.channel_id (Session.event session))
  ∧ (∀ r, In r (rows_from env session quote) ↔
          In r (Env.database env)
          ∧ Sent.from r = Quote.id quote
          ∧ Sent.from_sid r = Session.sid session
          ∧ Sent.from_channel_id r = Event.channel_id (Session.event session)).
Proof.
  intros Hq Hu. unfold quote_stage. rewrite Hq, Hu.
  split; [|split; [|split]].
  - intros Hself. apply seq_true in Hself. rewrite Hself.
    destruct (RuleSource.onlyQuote sConfig); simpl.
    + destruct (length (rows_to env session quote) =? 0)%nat eqn:Hlen.
      * right. by apply length_eqb_0 in Hlen.
      * left. split; [done|]. intros _ Hnil. rewrite Hnil in Hlen. discriminate.
    + left. split; [done|]. discriminate.
  - intros Hself Honly. apply seq_false in Hself. by rewrite Hself, Honly.
  - intros r. apply rows_to_In.
  - intros r. apply rows_from_In.
Qed.

Lemma quote_lookup_direction_witness :
  quote_stage Sample.env (Sample.source_of false) Sample.reply
    = Ok (QuoteRows [Sample.relay] (Some Sample.bot_user)).
Proof.
  destruct (quote_lookup_direction Sample.env (Sample.source_of false) Sample.reply
              (Sample.quote_of "t1" (Some Sample.bot_user)) Sample.bot_user
              eq_refl eq_refl) as [Hbot _].
  destruct (Hbot eq_refl) as [[Hrows _]|[Hdrop _]].
  - exact Hrows.
  - discriminate Hdrop.
Defined.

(** ** Round trip through the relay table *)

Lemma quoteId_of_bot_quote event quoteUser rows target r :
  Event.selfId event = User.id quoteUser →
  In r rows →
  Sent.from_sid r = targetSid target →
  Sent.from_channel_id r = RuleTarget.channelId target →
  ∃ r', In r' rows
        ∧ Sent.from_sid r' = targetSid target
        ∧ Sent.from_channel_id r' = RuleTarget.channelId target
        ∧ quoteId event quoteUser rows target = Some (Sent.from r').
Proof.
  intros Hself Hin Hsid Hch. unfold quoteId.
  apply seq_true in Hself. rewrite Hself.
  destruct (List.find _ rows) as [r'|] eqn:Hfind.
  - apply find_some in Hfind as [Hin' [Hs Hc]%andb_true_iff].
    apply seq_true in Hs, Hc. by exists r'.
  - apply (find_none _ _ Hfind) in Hin. simpl in Hin.
    apply andb_false_iff in Hin as [Hs|Hc].
    + by apply seq_false in Hs.
    + by apply seq_false in Hc.
Qed.

(** C2. Let the table hold a record [r] from source message [m1]
    (instance [s1], channel [c1]) to target message [t1] (instance [s2],
    channel [c2]), the only one between these two endpoints for [t1], and
    let a reply arrive on [s2]/[c2] that quotes [t1], written by the bot.
    Then the lookup succeeds and, for a target on [s1]/[c1], the payload
    carries the structural quote of [m1] (after the author marker if
    there is one, first otherwise) and no textual rendering of the quoted
    message; an online target is sent exactly that payload. *)
Theorem round_trip_quote env config sConfig session quote quoteUser target
    finalText index r :
  let event := Session.event session in
  Message.quote (Event.message event) = Some quote →
  quote_author env session quote = Ok quoteUser →
  Event.selfId event = User.id quoteUser →
  In r (Env.database env) →
  Sent.to r = Quote.id quote →
  Sent.to_sid r = Session.sid session →
  Sent.to_channel_id r = Event.channel_id event →
  Sent.from_sid r = targetSid target →
  Sent.from_channel_id r = RuleTarget.channelId target →
  Sent.from r ≠ "" →
  (∀ r', In r' (Env.database env) →
         Sent.to r' = Sent.to r → Sent.to_sid r' = Sent.to_sid r →
         Sent.to_channel_id r' = Sent.to_channel_id r →
         Sent.from_sid r' = Sent.from_sid r →
         Sent.from_channel_id r' = Sent.from_channel_id r →
         Sent.from r' = Sent.from r) →
  ∃ rows payload,
    quote_stage env sConfig session = Ok (QuoteRows rows (Some quoteUser))
    ∧ quoteId event quoteUser rows target = Some (Sent.from r)
    ∧ payload_for sConfig session rows (Some quoteUser) finalText target = Ok payload
    ∧ payload =
        (let pfx := prefix sConfig session target in
         if JS.seq (type pfx) "author"
         then [pfx; h_quote (Sent.from r); h_text finalText]
         else [h_quote (Sent.from r); pfx; h_text finalText])
    ∧ (∀ bot, Env.bots env !! targetSid target = Some bot →
              Bot.status bot = ONLINE →
              In (Send (targetSid target) (RuleTarget.channelId target) payload)
                 (deliver env config sConfig session rows (Some quoteUser)
                          finalText index target).1.1).
Proof.
  intros event Hq Hu Hself Hin Hto Hsid Hch Hfsid Hfch Hne Huniq. subst event.
  assert (Hrow : In r (rows_to env session quote)) by (by apply rows_to_In).
  destruct (quoteId_of_bot_quote _ quoteUser _ target r Hself Hrow Hfsid Hfch)
    as (r' & Hin' & Hs' & Hc' & Hid).
  apply rows_to_In in Hin' as (Hdb' & Hto' & Hsid' & Hch').
  assert (Hfrom : Sent.from r' = Sent.from r).
  { apply Huniq; [exact Hdb'|congruence..]. }
  rewrite Hfrom in Hid.
  assert (Hpay : payload_for sConfig session (rows_to env session quote)
                   (Some quoteUser) finalText target
                 = Ok (let pfx := prefix sConfig session target in
                       if JS.seq (type pfx) "author"
                       then [pfx; h_quote (Sent.from r); h_text finalText]
                       else [h_quote (Sent.from r); pfx; h_text finalText])).
  { unfold payload_for. rewrite Hq, Hid. simpl.
    apply String.eqb_neq in Hne. rewrite Hne. simpl.
    by destruct (JS.seq (type (prefix sConfig session target)) "author"). }
  eexists _, _. split; [|split; [exact Hid|split; [exact Hpay|split; [reflexivity|]]]].
  - unfold quote_stage. rewrite Hq, Hu.
    apply seq_true in Hself. rewrite Hself.
    destruct (rows_to env session quote) as [|x l]; [destruct Hrow|].
    simpl. by rewrite andb_false_r.
  - intros bot Hbot Hon. unfold deliver. rewrite Hbot, Hon, Hpay. simpl.
    destruct (Bot.sendMessage bot _ _); simpl; apply in_or_app; right; simpl; auto.
Qed.

Lemma round_trip_quote_witness :
  ∃ rows,
    quote_stage Sample.env (Sample.source_of false) Sample.reply
      = Ok (QuoteRows rows (Some Sample.bot_user))
    ∧ payload_for (Sample.source_of false) Sample.reply rows
                  (Some Sample.bot_user) "hi" Sample.qq
      = Ok [h_quote "m1"; h_text ("[DC - alice]" +:+ LF); h_text "hi"].
Proof.
  destruct (round_trip_quote Sample.env Sample.config (Sample.source_of false)
              Sample.reply (Sample.quote_of "t1" (Some Sample.bot_user))
              Sample.bot_user Sample.qq "hi" 0 Sample.relay)
    as (rows & payload & Hstage & _ & Hpay & Heq & _).
  - reflexivity.
  - reflexivity.
  - reflexivity.
  - simpl. auto.
  - reflexivity.
  - reflexivity.
  - reflexivity.
  - reflexivity.
  - reflexivity.
  - discriminate.
  - simpl. intros r' [<-|[]] _ _ _ _ _. reflexivity.
  - exists rows. split; [exact Hstage|]. rewrite Hpay, Heq. reflexivity.
Defined.

(** ** The listener, stage by stage *)

Section Pipeline.
Context `{RegExpEngine}.

Lemma listener_moderates env config sConfig targetConfigs session rows quoteUser :
  reaches_moderation env sConfig session rows quoteUser →
  listener env config sConfig targetConfigs session =
    let plain := plainText (filteredElements sConfig session) in
    let m := moderate plain
               (Env.fetch env (Session.userId session)
                          (Event.channel_id (Session.event session)) plain) in
    dispatch env config sConfig targetConfigs session rows quoteUser m.2 m.1.
Proof.
  intros (Hb & Hq & He). unfold listener. rewrite Hb, Hq, He. simpl.
  by destruct (moderate _ _).
Qed.

(** A pattern that hits stops the loop over the blocking words, unless
    an earlier pattern fails to compile. *)
Lemma blocked_hit words elements pattern reg :
  In pattern words →
  RegExp_new pattern = Some reg →
  hit reg elements = true →
  blocked words elements = Ok true ∨ blocked words elements = Throw SyntaxError.
Proof.
  intros Hin Hreg Hhit. induction words as [|w ws IH]; [destruct Hin|].
  simpl. destruct Hin as [->|Hin].
  - rewrite Hreg, Hhit. by left.
  - destruct (RegExp_new w) as [reg'|]; [|by right].
    destruct (hit reg' elements); [by left|]. by apply IH.
Qed.

Lemma blocked_no_throw words elements :
  (∀ p, In p words → is_Some (RegExp_new p)) →
  blocked words elements ≠ Throw SyntaxError.
Proof.
  induction words as [|w ws IH]; intros Hall; simpl; [done|].
  destruct (Hall w) as [reg Hreg]; [by left|]. rewrite Hreg.
  destruct (hit reg elements); [done|]. apply IH. intros p Hp. apply Hall. by right.
Qed.

(** C4. When some blocking word of the source endpoint compiles to a
    regular expression that matches the content of some text element,
    the listener stops in the blocking-word loop: it sends nothing and
    writes no record.  It returns there, or throws there when an earlier
    word is not a regular expression. *)
Theorem blocking_word_stops env config sConfig targetConfigs session
    pattern reg v content :
  In pattern (RuleSource.blockingWords sConfig) →
  RegExp_new pattern = Some reg →
  In v (Session.elements session) →
  type v = "text" →
  attrs v !! "content" = Some content →
  RegExp_test reg content = true →
  let o := listener env config sConfig targetConfigs session in
  sends o = [] ∧ upserts o = [] ∧ trace_of o = []
  ∧ (o = Dropped BlockingWord ∨ o = Threw [] SyntaxError)
  ∧ ((∀ p, In p (RuleSource.blockingWords sConfig) → is_Some (RegExp_new p)) →
     o = Dropped BlockingWord).
Proof.
  intros Hin Hreg Hv Ht Hc Htest o.
  assert (Hhit : hit reg (Session.elements session) = true).
  { unfold hit. apply existsb_exists. exists v. split; [done|].
    rewrite Ht, Hc. simpl. exact Htest. }
  pose proof (blocked_hit _ _ _ _ Hin Hreg Hhit) as Hb.
  assert (Ho : o = Dropped BlockingWord ∨ o = Threw [] SyntaxError).
  { subst o. unfold listener. destruct Hb as [->| ->]; auto. }
  assert (Htr : trace_of o = []) by (by destruct Ho as [->| ->]).
  unfold sends, upserts. rewrite Htr. repeat split; try done.
  intros Hall. destruct Hb as [Hb|Hb].
  - subst o. unfold listener. by rewrite Hb.
  - by apply (blocked_no_throw _ (Session.elements session)) in Hall.
Qed.

(** C7. A reply whose quote carries no author, on a connector whose
    [getMessage] rejects, ends the listener with that exception: nothing
    between the call and the listener's caller handles it. *)
Theorem quote_author_fetch_failure_throws env config sConfig targetConfigs
    session quote :
  blocked (RuleSource.blockingWords sConfig) (Session.elements session) = Ok false →
  Message.quote (Event.message (Session.event session)) = Some quote →
  Quote.user quote = None →
  Env.getMessage env (Session.channelId session) (Quote.id quote) = None →
  listener env config sConfig targetConfigs session = Threw [] GetMessageRejected.
Proof.
  intros Hb Hq Hu Hget. unfold listener, quote_stage, quote_author.
  by rewrite Hb, Hq, Hu, Hget.
Qed.

(** ** What the loop sends *)

Lemma last_two {A} (l : list A) (x y : A) : last (l ++ [x; y]) = Some y.
Proof. change [x; y] with ([x] ++ [y]). rewrite app_assoc. apply last_snoc. Qed.

(** The moderated text closes every payload. *)
Lemma payload_for_last sConfig session rows quoteUser finalText target payload :
  payload_for sConfig session rows quoteUser finalText target = Ok payload →
  last payload = Some (h_text finalText).
Proof.
  unfold payload_for.
  destruct (Message.quote _) as [quote|]; [|by intros [= <-]].
  destruct quoteUser as [qu|]; [|done].
  destruct (JS.truthy (quoteId _ _ _ _)).
  - destruct (JS.seq _ "author"); by intros [= <-].
  - destruct (JS.truthy (_ ≫= _)).
    + intros [= <-]. exact (last_two (fallback _ _) _ _).
    + destruct (Quote.user quote); [|done]. intros [= <-].
      exact (last_two (fallback _ _) _ _).
Qed.

Lemma deliver_sends env config sConfig session rows quoteUser finalText index
    target sid ch payload :
  In (Send sid ch payload)
     (deliver env config sConfig session rows quoteUser finalText index target).1.1 →
  payload_for sConfig session rows quoteUser finalText target = Ok payload.
Proof.
  unfold deliver. destruct (Env.bots env !! _) as [bot|]; simpl.
  - destruct (is_online _); simpl.
    + destruct (payload_for _ _ _ _ _ _) as [p|e]; simpl.
      * destruct (Bot.sendMessage _ _ _); simpl; rewrite in_app_iff;
          (intros [Hp|Hs];
           [destruct (index =? 0)%nat; simpl in Hp; intuition discriminate
           |simpl in Hs; intuition congruence]).
      * destruct (index =? 0)%nat; simpl; intuition discriminate.
    + intuition discriminate.
  - intuition discriminate.
Qed.

Lemma fanout_sends env config sConfig session rows quoteUser finalText
    targetConfigs index sid ch payload :
  In (Send sid ch payload)
     (fanout env config sConfig session rows quoteUser finalText index targetConfigs).1.1 →
  ∃ target, In target targetConfigs
            ∧ payload_for sConfig session rows quoteUser finalText target = Ok payload.
Proof.
  revert index. induction targetConfigs as [|target rest IH]; intros index; simpl; [done|].
  destruct (deliver _ _ _ _ _ _ _ index target) as [[tr staged] [e|]] eqn:Hd.
  - simpl. intros Hin. exists target. split; [by left|].
    eapply deliver_sends. rewrite Hd. exact Hin.
  - destruct (fanout _ _ _ _ _ _ _ (S index) rest) as [[tr' staged'] e'] eqn:Hf.
    simpl. rewrite in_app_iff. intros [Hin|Hin].
    + exists target. split; [by left|]. eapply deliver_sends. rewrite Hd. exact Hin.
    + destruct (IH (S index)) as (t & Ht & Hp); [by rewrite Hf|].
      exists t. split; [by right|done].
Qed.

Lemma dispatch_sends env config sConfig targetConfigs session rows quoteUser
    logged finalText sid ch payload :
  Forall (λ e, e = Warn CensorUnreachable) logged →
  In (Send sid ch payload)
     (trace_of (dispatch env config sConfig targetConfigs session rows quoteUser
                         logged finalText)) →
  last payload = Some (h_text finalText).
Proof.
  intros Hlog. unfold dispatch.
  destruct (fanout _ _ _ _ _ _ _ 0 targetConfigs) as [[tr staged] e] eqn:Hf.
  assert (Hlogged : ¬ In (Send sid ch payload) logged).
  { intros Hin. rewrite Forall_forall in Hlog.
    apply list_elem_of_In, Hlog in Hin. discriminate. }
  assert (Htr : In (Send sid ch payload) tr → last payload = Some (h_text finalText)).
  { intros Hin.
    destruct (fanout_sends env config sConfig session rows quoteUser finalText
                targetConfigs 0 sid ch payload) as (t & _ & Hp); [by rewrite Hf|].
    by eapply payload_for_last. }
  destruct e as [e|]; simpl; rewrite !in_app_iff.
  - intuition.
  - intros [Hin|[Hin|Hin]]; [done|by apply Htr|].
    destruct (length staged =? 0)%nat; simpl in Hin; intuition discriminate.
Qed.

(** ** When the loop cannot throw *)

Lemma quote_stage_author env sConfig session rows quoteUser quote :
  quote_stage env sConfig session = Ok (QuoteRows rows quoteUser) →
  Message.quote (Event.message (Session.event session)) = Some quote →
  is_Some quoteUser.
Proof.
  unfold quote_stage. intros Hs Hq. rewrite Hq in Hs.
  destruct (quote_author env session quote) as [u|]; [|done].
  destruct (JS.seq _ _).
  - destruct (_ && _); [done|]. injection Hs as _ <-. by eexists.
  - destruct (RuleSource.onlyQuote sConfig); [done|]. injection Hs as _ <-. by eexists.
Qed.

Lemma payload_for_defined env sConfig session rows quoteUser finalText target :
  quote_stage env sConfig session = Ok (QuoteRows rows quoteUser) →
  fallback_name_known session = true →
  ∃ payload, payload_for sConfig session rows quoteUser finalText target = Ok payload.
Proof.
  intros Hs Hk. unfold payload_for. unfold fallback_name_known in Hk.
  destruct (Message.quote _) as [quote|] eqn:Hq; [|by eexists].
  destruct (quote_stage_author _ _ _ _ _ _ Hs Hq) as [qu ->].
  destruct (JS.truthy (quoteId _ _ _ _)).
  - destruct (JS.seq _ "author"); by eexists.
  - destruct (JS.truthy (_ ≫= _)); [by eexists|]. simpl in Hk.
    apply bool_decide_eq_true in Hk as [u ->]. by eexists.
Qed.

Lemma fanout_no_throw env config sConfig session rows quoteUser finalText
    targetConfigs index :
  (∀ target, ∃ payload,
      payload_for sConfig session rows quoteUser finalText target = Ok payload) →
  (fanout env config sConfig session rows quoteUser finalText index targetConfigs).2 = None.
Proof.
  intros Hp. revert index.
  induction targetConfigs as [|target rest IH]; intros index; simpl; [done|].
  assert (Hd : (deliver env config sConfig session rows quoteUser finalText
                        index target).2 = None).
  { unfold deliver. destruct (Env.bots env !! _) as [bot|]; [|done].
    destruct (is_online _); [|done]. simpl.
    destruct (Hp target) as [payload ->].
    by destruct (Bot.sendMessage _ _ _). }
  destruct (deliver _ _ _ _ _ _ _ index target) as [[tr staged] e].
  simpl in Hd. subst e. specialize (IH (S index)).
  by destruct (fanout _ _ _ _ _ _ _ (S index) rest) as [[tr' staged'] e'].
Qed.

(** ** Moderation *)

Lemma moderate_failed plain r :
  moderation_failed r = true → (moderate plain r).1 = plain.
Proof.
  destruct r as [| |status [data|]]; simpl; try done.
  - rewrite orb_false_r. by intros ->%negb_true_iff.
  - intros _. by destruct (response_ok status).
Qed.

Lemma moderate_logged plain r :
  Forall (λ e, e = Warn CensorUnreachable) (moderate plain r).2.
Proof.
  destruct r as [| |status [data|]]; simpl; repeat constructor.
  - destruct (response_ok status); [|constructor].
    destruct (json_truthy data); [|constructor].
    destruct (json_context data) as [[]|]; constructor.
  - destruct (response_ok status); constructor.
Qed.

(** The text changes only on a 2xx response whose body is an object with
    a string under [context]. *)
Lemma moderate_replaces plain r :
  (moderate plain r).1 = plain
  ∨ ∃ status fields context,
      r = FetchResponse status (Some (JObj fields))
      ∧ response_ok status = true
      ∧ json_field "context" fields = Some (JStr context)
      ∧ (moderate plain r).1 = context.
Proof.
  destruct r as [| |status [data|]]; simpl; try by left.
  - destruct (response_ok status) eqn:Hok; [|by left].
    destruct (json_truthy data); [|by left].
    destruct data as [| | | | |fields]; simpl; try by left.
    destruct (json_field "context" fields) as [[| | |context| |]|] eqn:Hc; try by left.
    right. by exists status, fields, context.
  - destruct (response_ok status); by left.
Qed.

(** X24. Take a message that reaches the moderation call.  If the POST
    fails (the connection fails, the 500 ms timer aborts it, the status
    is not 2xx, or the body is not JSON), the listener goes on into the
    fan-out with the plain text unchanged: it is not dropped, every
    payload sent ends with that text, the moderation logs at most its
    warning, and the listener runs to its end whenever the name of a
    textual quote can be read.  Whatever the POST does, a payload ends
    with another text only after a 2xx response whose JSON object holds
    a string [context], and then with that string. *)
Theorem moderation_fail_open env config sConfig targetConfigs session rows quoteUser :
  reaches_moderation env sConfig session rows quoteUser →
  let plain := plainText (filteredElements sConfig session) in
  let r := Env.fetch env (Session.userId session)
                     (Event.channel_id (Session.event session)) plain in
  let o := listener env config sConfig targetConfigs session in
  (moderation_failed r = true →
     (∃ logged,
         o = dispatch env config sConfig targetConfigs session rows quoteUser
                      logged plain
         ∧ Forall (λ e, e = Warn CensorUnreachable) logged)
     ∧ (∀ why, o ≠ Dropped why)
     ∧ (∀ sid ch payload,
           In (Send sid ch payload) (trace_of o) → last payload = Some (h_text plain))
     ∧ (fallback_name_known session = true → ∃ tr, o = Completed tr))
  ∧ (∀ sid ch payload,
        In (Send sid ch payload) (trace_of o) →
        last payload = Some (h_text plain)
        ∨ ∃ status fields context,
            r = FetchResponse status (Some (JObj fields))
            ∧ response_ok status = true
            ∧ json_field "context" fields = Some (JStr context)
            ∧ last payload = Some (h_text context)).
Proof.
  intros Hreach plain r o.
  assert (Ho : o = dispatch env config sConfig targetConfigs session rows quoteUser
                            (moderate plain r).2 (moderate plain r).1).
  { subst o. by rewrite (listener_moderates _ _ _ _ _ _ _ Hreach). }
  pose proof (moderate_logged plain r) as Hlog.
  split.
  - intros Hfail. rewrite (moderate_failed plain r Hfail) in Ho.
    split; [by eexists|]. split; [|split].
    + intros why. rewrite Ho. unfold dispatch.
      by destruct (fanout _ _ _ _ _ _ _ _ _) as [[? ?] [?|]].
    + intros sid ch payload. rewrite Ho. by apply dispatch_sends.
    + intros Hk. rewrite Ho. unfold dispatch.
      destruct Hreach as (_ & Hq & _).
      pose proof (fanout_no_throw env config sConfig session rows quoteUser plain
                    targetConfigs 0
                    (λ t, payload_for_defined env sConfig session rows quoteUser
                            plain t Hq Hk)) as Hnone.
      destruct (fanout _ _ _ _ _ _ _ _ _) as [[tr staged] e].
      simpl in Hnone. subst e. by eexists.
  - intros sid ch payload. rewrite Ho. intros Hin.
    apply dispatch_sends in Hin; [|done].
    destruct (moderate_replaces plain r) as [Heq|(status & fields & context & ? & ? & ? & Heq)];
      rewrite Heq in Hin.
    + by left.
    + right. by exists status, fields, context.
Qed.

(** ** Quote-only endpoints *)

(** C5 (amended). On a source endpoint with [onlyQuote] set, a delivery
    happens only for a reply whose quoted author is the bot and for
    which the table holds a record whose target side is the quoted
    message on this instance and channel.  A message that is not a
    reply, a reply that quotes the bot with no such record, and every
    reply that quotes somebody else (with or without a record) end the
    listener before anything is sent or written. *)
Theorem quote_only_policy env config sConfig targetConfigs session :
  RuleSource.onlyQuote sConfig = true →
  let event := Session.event session in
  let o := listener env config sConfig targetConfigs session in
  (sends o ≠ [] →
     ∃ quote quoteUser r,
       Message.quote (Event.message event) = Some quote
       ∧ quote_author env session quote = Ok quoteUser
       ∧ User.id quoteUser = Event.selfId event
       ∧ In r (Env.database env)
       ∧ Sent.to r = Quote.id quote
       ∧ Sent.to_sid r = Session.sid session
       ∧ Sent.to_channel_id r = Event.channel_id event)
  ∧ (Message.quote (Event.message event) = None → trace_of o = [])
  ∧ (∀ quote quoteUser,
        Message.quote (Event.message event) = Some quote →
        quote_author env session quote = Ok quoteUser →
        User.id quoteUser ≠ Event.selfId event →
        trace_of o = [])
  ∧ (∀ quote quoteUser,
        Message.quote (Event.message event) = Some quote →
        quote_author env session quote = Ok quoteUser →
        User.id quoteUser = Event.selfId event →
        rows_to env session quote = [] →
        trace_of o = []).
Proof.
  intros Honly event o. subst event o. unfold sends, listener.
  destruct (blocked _ _) as [[]|e]; simpl;
    [repeat split; done| |repeat split; done].
  unfold quote_stage. rewrite Honly.
  destruct (Message.quote _) as [quote|]; simpl; [|repeat split; done].
  destruct (quote_author env session quote) as [u|e] eqn:Hu; simpl;
    [|repeat split; done].
  destruct (JS.seq _ (User.id u)) eqn:Hself; simpl.
  - apply seq_true in Hself.
    destruct (rows_to env session quote) as [|r rows'] eqn:Hrows; simpl.
    + repeat split; done.
    + split; [|split; [done|split]].
      * intros _. exists quote, u, r.
        assert (Hin : In r (rows_to env session quote)) by (rewrite Hrows; by left).
        apply rows_to_In in Hin. intuition.
      * intros q' u' [= <-]. rewrite Hu. intros [= <-]. congruence.
      * intros q' u' [= <-]. rewrite Hu. intros [= <-] _. rewrite Hrows. done.
  - repeat split; done.
Qed.
End Pipeline.

Lemma blocking_word_stops_witness :
  listener Sample.env Sample.config (Sample.source_of false) [Sample.qq]
           (Sample.session_of "discord" "200" "c2" [h_text "buy spam now"] None [])
    = Dropped BlockingWord.
Proof.
  eapply (blocking_word_stops Sample.env Sample.config (Sample.source_of false)
            [Sample.qq]
            (Sample.session_of "discord" "200" "c2" [h_text "buy spam now"] None [])
            "spam" _ (h_text "buy spam now") "buy spam now").
  - simpl. auto.
  - reflexivity.
  - simpl. auto.
  - reflexivity.
  - reflexivity.
  - reflexivity.
  - simpl. intros p [<-|[]]. by eexists.
Defined.

Lemma quote_author_fetch_failure_throws_witness :
  listener Sample.env Sample.config (Sample.source_of false) [Sample.qq]
           (Sample.session_of "discord" "200" "c2" [h_text "hi"]
                              (Some (Sample.quote_of "t1" None)) [])
    = Threw [] GetMessageRejected.
Proof.
  apply (quote_author_fetch_failure_throws Sample.env Sample.config
           (Sample.source_of false) [Sample.qq]
           (Sample.session_of "discord" "200" "c2" [h_text "hi"]
                              (Some (Sample.quote_of "t1" None)) [])
           (Sample.quote_of "t1" None)); reflexivity.
Defined.

(** The same reply, with a connector that does return the quoted author
    (somebody other than the bot) and no record for the quoted message:
    the textual rendering of the quote reads the nick of [quote.user],
    which the event does not carry, and the listener throws before the
    first send. *)
Example quote_without_author_throws :
  listener (Sample.env_of {[ "qq:100" := Sample.bot_of ONLINE (Some ["n1"]) ]} []
                          (Some (Some Sample.alice)) FetchRejected)
           Sample.config (Sample.source_of false) [Sample.qq]
           (Sample.session_of "discord" "200" "c2" [h_text "hi"]
                              (Some (Sample.quote_of "t1" None)) [])
    = Threw [Warn CensorUnreachable] TypeError.
Proof. reflexivity. Qed.

Lemma moderation_fail_open_witness :
  listener Sample.env Sample.config (Sample.source_of false) [Sample.qq] Sample.reply
    = dispatch Sample.env Sample.config (Sample.source_of false) [Sample.qq]
               Sample.reply [Sample.relay] (Some Sample.bot_user)
               [Warn CensorUnreachable] "hi".
Proof.
  destruct (moderation_fail_open Sample.env Sample.config (Sample.source_of false)
              [Sample.qq] Sample.reply [Sample.relay] (Some Sample.bot_user))
    as [Hfail _].
  - repeat split.
  - destruct (Hfail eq_refl) as [_ [_ [_ Hdone]]].
    destruct (Hdone eq_refl) as [tr Htr]. reflexivity.
Defined.

Lemma quote_only_counterexample :
  rows_to QuoteOnlySample.env QuoteOnlySample.reply QuoteOnlySample.quote
    = [Sample.relay]
  ∧ rows_from QuoteOnlySample.env QuoteOnlySample.reply QuoteOnlySample.quote
    = [QuoteOnlySample.other]
  ∧ listener QuoteOnlySample.env Sample.config (Sample.source_of true) [Sample.qq]
             QuoteOnlySample.reply
    = Dropped QuoteOnly.
Proof. repeat split. Qed.

Lemma quote_only_policy_witness :
  trace_of (listener QuoteOnlySample.env Sample.config (Sample.source_of true)
                     [Sample.qq] QuoteOnlySample.reply) = [].
Proof.
  destruct (quote_only_policy QuoteOnlySample.env Sample.config (Sample.source_of true)
              [Sample.qq] QuoteOnlySample.reply eq_refl) as (_ & _ & Hother & _).
  apply (Hother QuoteOnlySample.quote Sample.alice); [reflexivity|reflexivity|discriminate].
Defined.

(** ** Fan-out over the targets of a rule *)

Lemma deliver_online env config sConfig session rows quoteUser finalText index
    target bot payload :
  Env.bots env !! targetSid target = Some bot →
  Bot.status bot = ONLINE →
  payload_for sConfig session rows quoteUser finalText target = Ok payload →
  let sent := Bot.sendMessage bot (RuleTarget.channelId target) payload in
  deliver env config sConfig session rows quoteUser finalText index target =
    ((if (index =? 0)%nat then []
      else [Sleep (default 200%Z (Config.delay config !! RuleTarget.platform target))])
     ++ [Send (targetSid target) (RuleTarget.channelId target) payload]
     ++ on_failure sent,
     staged env session target sent, None).
Proof.
  intros Hbot Hon Hp. unfold deliver. rewrite Hbot, Hon, Hp. simpl.
  by destruct (Bot.sendMessage bot _ _).
Qed.

Lemma deliver_unavailable env config sConfig session rows quoteUser finalText
    index target :
  (Env.bots env !! targetSid target = None
   ∨ ∃ bot, Env.bots env !! targetSid target = Some bot ∧ Bot.status bot ≠ ONLINE) →
  deliver env config sConfig session rows quoteUser finalText index target =
    ([Warn (match Env.bots env !! targetSid target with
            | None => BotNotFound (targetSid target)
            | Some _ => BotNotOnline (targetSid target)
            end)], [], None).
Proof.
  intros [Hnone|(bot & Hbot & Hoff)]; unfold deliver.
  - by rewrite Hnone.
  - rewrite Hbot. by destruct (Bot.status bot).
Qed.

(** C6. Let the targets of a rule be [A; B; C], the bots of [A] and [C]
    online, and the bot of [B] missing or not online.  Then the loop sends
    to [A], warns about [B], sleeps for the delay configured for the
    platform of [C] (200 ms when none is configured) and sends to [C], in
    this order; nothing precedes the send to [A], no exception leaves the
    loop, and the listener ends after the upsert of the rows staged by
    the two sends. *)
Theorem fanout_skips_unavailable env config sConfig session rows quoteUser
    finalText A B C botA botC payloadA payloadC :
  Env.bots env !! targetSid A = Some botA →
  Bot.status botA = ONLINE →
  Env.bots env !! targetSid C = Some botC →
  Bot.status botC = ONLINE →
  (Env.bots env !! targetSid B = None
   ∨ ∃ botB, Env.bots env !! targetSid B = Some botB ∧ Bot.status botB ≠ ONLINE) →
  payload_for sConfig session rows quoteUser finalText A = Ok payloadA →
  payload_for sConfig session rows quoteUser finalText C = Ok payloadC →
  let sendA := Send (targetSid A) (RuleTarget.channelId A) payloadA in
  let sendC := Send (targetSid C) (RuleTarget.channelId C) payloadC in
  let sentA := Bot.sendMessage botA (RuleTarget.channelId A) payloadA in
  let sentC := Bot.sendMessage botC (RuleTarget.channelId C) payloadC in
  let warnB :=
    Warn (match Env.bots env !! targetSid B with
          | None => BotNotFound (targetSid B)
          | Some _ => BotNotOnline (targetSid B)
          end) in
  let pause := Sleep (default 200%Z (Config.delay config !! RuleTarget.platform C)) in
  let trace := [sendA] ++ on_failure sentA ++ [warnB] ++ [pause; sendC] ++ on_failure sentC in
  let sentRows := staged env session A sentA ++ staged env session C sentC in
  fanout env config sConfig session rows quoteUser finalText 0 [A; B; C]
    = (trace, sentRows, None)
  ∧ List.filter is_send trace = [sendA; sendC]
  ∧ ∀ logged,
      dispatch env config sConfig [A; B; C] session rows quoteUser logged finalText
      = Completed (logged ++ trace
                   ++ if (length sentRows =? 0)%nat then [] else [Upsert sentRows]).
Proof.
  intros HA HonA HC HonC HB HpA HpC sendA sendC sentA sentC warnB pause trace sentRows.
  assert (Hf : fanout env config sConfig session rows quoteUser finalText 0 [A; B; C]
               = (trace, sentRows, None)).
  { simpl.
    rewrite (deliver_online _ _ _ _ _ _ _ 0 A botA payloadA HA HonA HpA).
    rewrite (deliver_unavailable _ _ _ _ _ _ _ 1 B HB).
    rewrite (deliver_online _ _ _ _ _ _ _ 2 C botC payloadC HC HonC HpC).
    simpl. subst trace sentRows. simpl.
    by rewrite !app_nil_r. }
  split; [exact Hf|]. split.
  - subst trace sentA sentC.
    destruct (Bot.sendMessage botA _ _), (Bot.sendMessage botC _ _); reflexivity.
  - intros logged. unfold dispatch. by rewrite Hf.
Qed.

Lemma fanout_skips_unavailable_witness :
  (fanout FanoutSample.env FanoutSample.config (Sample.source_of false)
          FanoutSample.message [] None "hi" 0
          [Sample.qq; FanoutSample.kook; FanoutSample.telegram]).1.1
  = [Send "qq:100" "c1" FanoutSample.payload;
     Warn (BotNotFound "kook:1");
     Sleep 350;
     Send "telegram:300" "g1" FanoutSample.payload].
Proof.
  destruct (fanout_skips_unavailable FanoutSample.env FanoutSample.config
              (Sample.source_of false) FanoutSample.message [] None "hi"
              Sample.qq FanoutSample.kook FanoutSample.telegram
              (Sample.bot_of ONLINE (Some ["n1"])) (Sample.bot_of ONLINE (Some ["n2"]))
              FanoutSample.payload FanoutSample.payload) as [Hf _].
  - reflexivity.
  - reflexivity.
  - reflexivity.
  - reflexivity.
  - left. reflexivity.
  - reflexivity.
  - reflexivity.
  - rewrite Hf. reflexivity.
Defined.

(** ** The prefix of a payload *)

Lemma append_assoc (a b c : string) : (a +:+ b) +:+ c = a +:+ (b +:+ c).
Proof.
  induction a as [|x a IH]; [done|].
  change (String x ((a +:+ b) +:+ c) = String x (a +:+ (b +:+ c))). by rewrite IH.
Qed.

(** The avatar of the marker does not depend on whether the event carries
    one: a Telegram sender with an avatar is shown with the default one,
    and a QQ sender without avatar is shown without any. *)
Lemma prefix_avatar_counterexample :
  (attrs (prefix (Sample.source_of false) PrefixSample.from_telegram
                 PrefixSample.discord) !! "avatar" = Some default_avatar
   ∧ spec_avatar (Session.event PrefixSample.from_telegram)
     = Some "https://cdn.example/alice.png")
  ∧ (attrs (prefix (Sample.source_of false) PrefixSample.from_qq
                   PrefixSample.discord) !! "avatar" = None
     ∧ spec_avatar (Session.event PrefixSample.from_qq) = Some default_avatar).
Proof. repeat split. Qed.

(** C9 (amended). The prefix is an [author] element exactly when the
    target sets [simulateOriginal] and its platform is discord.  The
    element then carries the sender's name, after the name of the source
    in brackets, and the sender's avatar, replaced by the default avatar
    exactly when the source platform is telegram, whatever the event
    carries.  For every other target the prefix is the text
    [[<source-name> - <username>]] followed by a line break, the source
    name and the dash left out when the source has no name. *)
Theorem prefix_shape sConfig session target :
  let event := Session.event session in
  let simulated :=
    RuleTarget.simulateOriginal target && JS.seq (RuleTarget.platform target) "discord" in
  let pfx := prefix sConfig session target in
  (type pfx = "author" ↔
     RuleTarget.simulateOriginal target = true ∧ RuleTarget.platform target = "discord")
  ∧ (simulated = true →
       attrs pfx !! "name"
         = Some ("[" +:+ JS.nullish (RuleSource.name sConfig) "" +:+ "] "
                 +:+ Session.username session)
       ∧ (Event.platform event = "telegram" →
            attrs pfx !! "avatar" = Some default_avatar)
       ∧ (Event.platform event ≠ "telegram" →
            attrs pfx !! "avatar" = User.avatar (Event.user event)))
  ∧ (simulated = false →
       (∀ name, RuleSource.name sConfig = Some name → name ≠ "" →
                pfx = h_text ("[" +:+ name +:+ " - " +:+ Session.username session
                              +:+ "]" +:+ LF))
       ∧ (JS.truthy (RuleSource.name sConfig) = false →
            pfx = h_text ("[" +:+ Session.username session +:+ "]" +:+ LF))).
Proof.
  intros event simulated pfx. subst pfx. unfold prefix. fold event. fold simulated.
  assert (Hsim : simulated = true ↔
            RuleTarget.simulateOriginal target = true
            ∧ RuleTarget.platform target = "discord").
  { subst simulated. by rewrite andb_true_iff, seq_true. }
  destruct simulated.
  - split; [|split; [|done]].
    + split; [intros _; by apply Hsim|done].
    + intros _. split; [|split].
      * unfold h_author; simpl. destruct (if JS.seq _ _ then _ else _); simpl.
        -- by rewrite lookup_insert_ne, lookup_singleton_eq.
        -- by rewrite lookup_singleton_eq.
      * intros Htg. apply seq_true in Htg. rewrite Htg. unfold h_author; simpl.
        by rewrite lookup_insert_eq.
      * intros Htg. apply seq_false in Htg. rewrite Htg. unfold h_author; simpl.
        destruct (User.avatar _); simpl.
        -- by rewrite lookup_insert_eq.
        -- by rewrite lookup_singleton_ne.
  - split; [|split; [done|]].
    + split; [done|]. intros Hs. apply Hsim in Hs. discriminate.
    + intros _. split.
      * intros name Hname Hne. rewrite Hname. unfold JS.truthy, JS.interp.
        apply String.eqb_neq in Hne. rewrite Hne. simpl.
        by rewrite append_assoc.
      * by intros ->.
Qed.

Lemma prefix_shape_witness :
  prefix (Sample.source_of false) Sample.reply Sample.qq
    = h_text ("[DC - alice]" +:+ LF)
  ∧ prefix (Sample.source_of false) Sample.reply
           (Sample.target_of "discord" "201" "c3" true)
    = h_author "[DC] alice" (Some "https://cdn.example/alice.png").
Proof.
  destruct (prefix_shape (Sample.source_of false) Sample.reply Sample.qq)
    as (_ & _ & Hbanner).
  destruct (Hbanner eq_refl) as [Hnamed _].
  split.
  - exact (Hnamed "DC" eq_refl ltac:(discriminate)).
  - reflexivity.
Defined.

(** ** Discord embeds *)

Lemma join_empty_cons (x : string) (l : list string) :
  join "" (x :: l) = x +:+ join "" l.
Proof.
  unfold join. destruct l as [|y l]; simpl.
  - induction x as [|c x IH]; [done|].
    change (String c x = String c (x +:+ "")). by rewrite <- IH.
  - reflexivity.
Qed.

Lemma join_empty_app (l1 l2 : list string) :
  join "" (l1 ++ l2) = join "" l1 +:+ join "" l2.
Proof.
  induction l1 as [|x l1 IH]; [done|].
  change ((x :: l1) ++ l2) with (x :: (l1 ++ l2)).
  by rewrite !join_empty_cons, IH, append_assoc.
Qed.

Lemma plainText_app (xs ys : list h) :
  plainText (xs ++ ys) = plainText xs +:+ plainText ys.
Proof. unfold plainText. by rewrite map_app, join_empty_app. Qed.

Lemma embed_elements_text (embeds : list Embed.t) :
  embed_elements embeds = flat_map embed_text embeds.
Proof.
  unfold embed_elements. apply flat_map_ext. intros embed.
  unfold embed_buffer, embed_text.
  by destruct (JS.truthy (Embed.title embed)), (JS.truthy (Embed.description embed)).
Qed.

Section Embeds.
Context `{RegExpEngine}.

(** C10. On a session whose platform is discord, the elements kept for
    the text are the transformed body followed by one text element for
    each embed that has a title or a description (both, joined by a line
    break, when it has both), so that the plain text ends with the text
    of the embeds.  A message that passes the blocking words and the
    quote stage, has no text of its own and has embeds whose text is not
    blank is therefore not dropped as empty: the listener moderates the
    text of the embeds and fans it out, and a first target that is
    online is sent it. *)
Theorem discord_embeds_are_text env config sConfig targetConfigs session :
  Session.platform session = "discord" →
  let event := Session.event session in
  let body := transform (Message.elements (Event.message event))
                        {[ "at" := visit_at_body sConfig event ]} in
  let embedded := flat_map embed_text (Event.embeds event) in
  let o := listener env config sConfig targetConfigs session in
  filteredElements sConfig session = body ++ embedded
  ∧ plainText (filteredElements sConfig session)
    = plainText body +:+ plainText embedded
  ∧ (∀ rows quoteUser,
       blocked (RuleSource.blockingWords sConfig) (Session.elements session) = Ok false →
       quote_stage env sConfig session = Ok (QuoteRows rows quoteUser) →
       plainText body = "" →
       trim_is_empty (plainText embedded) = false →
       let m := moderate (plainText embedded)
                  (Env.fetch env (Session.userId session) (Event.channel_id event)
                             (plainText embedded)) in
       o = dispatch env config sConfig targetConfigs session rows quoteUser m.2 m.1
       ∧ o ≠ Dropped EmptyText
       ∧ (∀ target rest bot,
            targetConfigs = target :: rest →
            Env.bots env !! targetSid target = Some bot →
            Bot.status bot = ONLINE →
            Message.quote (Event.message event) = None →
            In (Send (targetSid target) (RuleTarget.channelId target)
                     [prefix sConfig session target; h_text m.1])
               (trace_of o))).
Proof.
  intros Hplat event body embedded o.
  assert (Hfe : filteredElements sConfig session = body ++ embedded).
  { unfold filteredElements. fold event. fold body.
    apply seq_true in Hplat. rewrite Hplat. by rewrite embed_elements_text. }
  assert (Hpt : plainText (filteredElements sConfig session)
                = plainText body +:+ plainText embedded).
  { by rewrite Hfe, plainText_app. }
  split; [exact Hfe|]. split; [exact Hpt|].
  intros rows quoteUser Hb Hq Hbody Hblank m.
  assert (Hplain : plainText (filteredElements sConfig session) = plainText embedded).
  { by rewrite Hpt, Hbody. }
  assert (Ho : o = dispatch env config sConfig targetConfigs session rows quoteUser
                            m.2 m.1).
  { subst o m.
    rewrite (listener_moderates env config sConfig targetConfigs session rows quoteUser).
    - simpl. fold event. by rewrite Hplain.
    - repeat split; [done|done|by rewrite Hplain]. }
  split; [exact Ho|]. split.
  - rewrite Ho. unfold dispatch. by destruct (fanout _ _ _ _ _ _ _ _ _) as [[? ?] [?|]].
  - intros target rest bot -> Hbot Hon Hnq. rewrite Ho. unfold dispatch. simpl.
    assert (Hp : payload_for sConfig session rows quoteUser m.1 target
                 = Ok [prefix sConfig session target; h_text m.1]).
    { unfold payload_for. fold event. by rewrite Hnq. }
    rewrite (deliver_online _ _ _ _ _ _ _ 0 target bot _ Hbot Hon Hp). simpl.
    destruct (fanout _ _ _ _ _ _ _ 1 rest) as [[tr' staged'] [e|]]; simpl;
      rewrite in_app_iff; right; by left.
Qed.
End Embeds.

Lemma discord_embeds_are_text_witness :
  listener Sample.env Sample.config (Sample.source_of false) [Sample.qq]
           EmbedSample.message
  = Completed
      [Warn CensorUnreachable;
       Send "qq:100" "c1" [h_text ("[DC - alice]" +:+ LF); h_text EmbedSample.text];
       Upsert [sentRow Sample.env EmbedSample.message Sample.qq "n1"]].
Proof.
  destruct (discord_embeds_are_text Sample.env Sample.config (Sample.source_of false)
              [Sample.qq] EmbedSample.message eq_refl) as (_ & _ & Hfwd).
  destruct (Hfwd [] None eq_refl eq_refl eq_refl eq_refl) as (Ho & _ & _).
  rewrite Ho. reflexivity.
Defined.

(** * Further properties of the code *)

(** ** The content transform *)

Lemma default_rule_unvisited (t : string) :
  visited t = false → rule_for default_rules t = None.
Proof.
  unfold visited. rewrite !orb_false_iff, !seq_false. intros [[[Hi Ha] Hf] Hu].
  unfold rule_for, default_rules.
  rewrite !lookup_insert_ne by done. rewrite lookup_empty. reflexivity.
Qed.

Lemma body_rule_for sConfig event (t : string) :
  rule_for (body_rules sConfig event ∪ default_rules) t =
    if JS.seq t "at" then Some (visit_at_body sConfig event)
    else rule_for default_rules t.
Proof.
  unfold rule_for, body_rules. destruct (JS.seq t "at") eqn:Hat.
  - apply seq_true in Hat. subst t.
    by rewrite (lookup_union_Some_l _ _ _ _ (lookup_singleton_eq _ _)).
  - apply seq_false in Hat.
    rewrite !lookup_union_r by (by apply lookup_singleton_ne).
    reflexivity.
Qed.

Lemma transform_with_ext (v1 v2 : string → gmap string string → list h → vresult) :
  (∀ t a cs, v1 t a cs = v2 t a cs) →
  ∀ e, transform_with v1 e = transform_with v2 e.
Proof.
  intros Hv e. induction e as [t a cs IH] using h_nested_ind. simpl.
  rewrite Hv. destruct (v2 t a cs); try done. f_equal. f_equal.
  induction IH as [|c cs Hc _ IHcs]; simpl; [done|]. by rewrite Hc, IHcs.
Qed.

(** X1. Outside quote-only mode the override that the listener passes for
    mentions changes nothing: the body is transformed as by [transform]
    without rules. *)
Theorem body_override_inert sConfig event (source : list h) :
  RuleSource.onlyQuote sConfig = false →
  transform source (body_rules sConfig event) = transform source ∅.
Proof.
  intros Honly. unfold transform, h_transform.
  apply flat_map_ext. intros e. apply transform_with_ext. intros t a cs.
  unfold visit. rewrite body_rule_for, (left_id_L ∅ (∪)).
  destruct (JS.seq t "at") eqn:Hat; [|done].
  apply seq_true in Hat. subst t. simpl.
  unfold visit_at_body, visit_at. by rewrite Honly.
Qed.

Lemma body_override_inert_witness :
  transform [El "at" {[ "id" := "200" ]} []; h_text " hi"]
            (body_rules (Sample.source_of false) (Session.event Sample.reply))
  = [h_text "@200"; h_text " hi"].
Proof.
  rewrite (body_override_inert (Sample.source_of false) (Session.event Sample.reply)
             [El "at" {[ "id" := "200" ]} []; h_text " hi"] eq_refl).
  reflexivity.
Defined.

Lemma transform_with_settles_by (v : string → gmap string string → list h → vresult) :
  (∀ t a cs, match v t a cs with
             | VKeep => visited t = false
             | VDrop => True
             | VElems es => forallb settled es = true
             end) →
  ∀ e, forallb settled (transform_with v e) = true.
Proof.
  intros Hv e. induction e as [t a cs IH] using h_nested_ind. simpl.
  specialize (Hv t a cs). destruct (v t a cs); [|done|done].
  simpl. rewrite Hv. simpl. rewrite andb_true_r. by apply forallb_flat_map.
Qed.

Lemma default_visit_settles (t : string) a cs :
  match visit default_rules t a cs with
  | VKeep => visited t = false
  | VDrop => True
  | VElems es => forallb settled es = true
  end.
Proof.
  rewrite <- (left_id_L ∅ (∪) default_rules).
  destruct (visited t) eqn:Ht.
  - by destruct (visit_visited t a cs Ht) as [->|[content ->]].
  - unfold visit. by rewrite (rule_for_unvisited t Ht).
Qed.

Lemma body_visit_settles sConfig event (t : string) a cs :
  match visit (body_rules sConfig event ∪ default_rules) t a cs with
  | VKeep => visited t = false
  | VDrop => True
  | VElems es => forallb settled es = true
  end.
Proof.
  pose proof (default_visit_settles t a cs) as Hd.
  unfold visit in *. rewrite body_rule_for.
  destruct (JS.seq t "at"); [|exact Hd].
  unfold visit_at_body. by destruct (_ && _).
Qed.

(** X3. What the listener keeps of a message has no image, mention, face
    or audio element left at any depth, with or without quote-only mode
    and with or without Discord embeds. *)
Theorem filteredElements_settled sConfig session :
  forallb settled (filteredElements sConfig session) = true.
Proof.
  unfold filteredElements. rewrite forallb_app. apply andb_true_iff. split.
  - unfold transform, h_transform. apply forallb_flat_map, Forall_forall.
    intros e _. apply transform_with_settles_by. intros t a cs.
    apply body_visit_settles.
  - destruct (JS.seq _ "discord"); [|done].
    rewrite embed_elements_text. apply forallb_flat_map, Forall_forall.
    intros embed _. unfold embed_text.
    by destruct (JS.truthy (Embed.title embed)), (JS.truthy (Embed.description embed)).
Qed.

(** X4. At the top level [transform] without rules removes the images and
    nothing else: every other element gives exactly one element of the
    output, in the same order. *)
Theorem transform_drops_images_only (source : list h) :
  length (transform source ∅)
  = length (List.filter (λ e, negb (JS.seq (type e) "image")) source)
  ∧ map type (transform source ∅)
    = map (λ e, if textual (type e) then "text" else type e)
          (List.filter (λ e, negb (JS.seq (type e) "image")) source).
Proof.
  assert (Hone : ∀ e,
    map type (transform_with (visit (∅ ∪ default_rules)) e)
    = if JS.seq (type e) "image" then []
      else [if textual (type e) then "text" else type e]).
  { intros [t a cs]. simpl. destruct (visited t) eqn:Ht.
    - unfold visited in Ht. rewrite !orb_true_iff, !seq_true in Ht.
      destruct Ht as [[[->| ->]| ->]| ->]; reflexivity.
    - unfold visit. rewrite (rule_for_unvisited t Ht). simpl.
      unfold visited in Ht. unfold textual.
      apply orb_false_iff in Ht as [[[Hi Ha]%orb_false_iff Hf]%orb_false_iff Hu].
      rewrite Hi, Ha, Hf, Hu. simpl. rewrite !orb_false_r.
      destruct (JS.seq t "text") eqn:Htx; [|done].
      apply seq_true in Htx. by subst t. }
  assert (Hall : map type (transform source ∅)
    = map (λ e, if textual (type e) then "text" else type e)
          (List.filter (λ e, negb (JS.seq (type e) "image")) source)).
  { unfold transform, h_transform. induction source as [|e source IH]; [done|].
    simpl. rewrite map_app, Hone, IH. by destruct (JS.seq (type e) "image"). }
  split; [|exact Hall].
  by rewrite <- (length_map type), Hall, length_map.
Qed.

(** ** The loop over the targets *)

(** One iteration in closed form. *)
Lemma deliver_eq env config sConfig session rows quoteUser finalText index target :
  deliver env config sConfig session rows quoteUser finalText index target =
    if unavailable env target then ([skip_warning env target], [], None)
    else
      match payload_for sConfig session rows quoteUser finalText target with
      | Throw e => (pace config index target, [], Some e)
      | Ok payload =>
          let sent :=
            match Env.bots env !! targetSid target with
            | Some bot => Bot.sendMessage bot (RuleTarget.channelId target) payload
            | None => None
            end in
          (pace config index target
           ++ [Send (targetSid target) (RuleTarget.channelId target) payload]
           ++ on_failure sent,
           staged env session target sent, None)
      end.
Proof.
  unfold deliver, unavailable, skip_warning, pace.
  destruct (Env.bots env !! targetSid target) as [bot|]; [|done].
  destruct (is_online (Bot.status bot)); simpl; [|done].
  destruct (payload_for _ _ _ _ _ _) as [payload|e]; [|done].
  by destruct (Bot.sendMessage bot _ _).
Qed.

Lemma pace_no_send config index target sid ch payload :
  ¬ In (Send sid ch payload) (pace config index target).
Proof. unfold pace. destruct (index =? 0)%nat; simpl; intuition discriminate. Qed.

Lemma on_failure_no_send sent sid ch payload :
  ¬ In (Send sid ch payload) (on_failure sent).
Proof. destruct sent; simpl; intuition discriminate. Qed.

Lemma deliver_send_inv env config sConfig session rows quoteUser finalText index
    target sid ch payload :
  In (Send sid ch payload)
     (deliver env config sConfig session rows quoteUser finalText index target).1.1 →
  sid = targetSid target ∧ ch = RuleTarget.channelId target
  ∧ unavailable env target = false
  ∧ payload_for sConfig session rows quoteUser finalText target = Ok payload.
Proof.
  rewrite deliver_eq. destruct (unavailable env target).
  - simpl. unfold skip_warning. intuition discriminate.
  - destruct (payload_for _ _ _ _ _ _) as [p|e]; simpl.
    + rewrite !in_app_iff. intros [Hin|[Hin|Hin]].
      * by apply pace_no_send in Hin.
      * by injection Hin as <- <- <-.
      * by apply on_failure_no_send in Hin.
    + intros Hin. by apply pace_no_send in Hin.
Qed.

Lemma deliver_staged_inv env config sConfig session rows quoteUser finalText index
    target r :
  In r (deliver env config sConfig session rows quoteUser finalText index target).1.2 →
  unavailable env target = false
  ∧ (∃ msgId, r = sentRow env session target msgId)
  ∧ ∃ payload,
      In (Send (targetSid target) (RuleTarget.channelId target) payload)
         (deliver env config sConfig session rows quoteUser finalText index target).1.1.
Proof.
  rewrite deliver_eq. destruct (unavailable env target); [done|].
  destruct (payload_for _ _ _ _ _ _) as [p|e]; simpl; [|done].
  intros Hin. split; [done|]. split.
  - unfold staged in Hin.
    destruct (Env.bots env !! targetSid target) as [bot|]; [|done].
    destruct (Bot.sendMessage bot _ _) as [ids|]; [|done].
    apply in_map_iff in Hin as (msgId & <- & _). by exists msgId.
  - exists p. rewrite !in_app_iff. right. by left.
Qed.

Lemma deliver_no_upsert env config sConfig session rows quoteUser finalText index target :
  List.filter is_upsert
    (deliver env config sConfig session rows quoteUser finalText index target).1.1 = [].
Proof.
  rewrite deliver_eq. destruct (unavailable env target); [done|].
  unfold pace. destruct (payload_for _ _ _ _ _ _) as [p|e]; simpl.
  - destruct (Env.bots env !! targetSid target) as [bot|];
      [destruct (Bot.sendMessage bot _ _)|]; by destruct (index =? 0)%nat.
  - by destruct (index =? 0)%nat.
Qed.

(** The loop, one iteration at a time. *)
Lemma fanout_cons env config sConfig session rows quoteUser finalText index target rest :
  fanout env config sConfig session rows quoteUser finalText index (target :: rest) =
    let d := deliver env config sConfig session rows quoteUser finalText index target in
    match d.2 with
    | Some e => d
    | None =>
        let f := fanout env config sConfig session rows quoteUser finalText (S index) rest in
        (d.1.1 ++ f.1.1, d.1.2 ++ f.1.2, f.2)
    end.
Proof.
  simpl. destruct (deliver _ _ _ _ _ _ _ index target) as [[tr staged] [e|]]; [done|].
  by destruct (fanout _ _ _ _ _ _ _ (S index) rest) as [[tr' staged'] e'].
Qed.

(** X5. The loop over a list of targets in two parts: the first part
    runs; if it throws, that is the result; otherwise the second part
    runs with the indices that follow, and the traces and the staged rows
    are concatenated. *)
Theorem fanout_app env config sConfig session rows quoteUser finalText index
    (first second : list RuleTarget.t) :
  fanout env config sConfig session rows quoteUser finalText index (first ++ second) =
    let f := fanout env config sConfig session rows quoteUser finalText index first in
    match f.2 with
    | Some e => f
    | None =>
        let g := fanout env config sConfig session rows quoteUser finalText
                        (index + length first) second in
        (f.1.1 ++ g.1.1, f.1.2 ++ g.1.2, g.2)
    end.
Proof.
  revert index. induction first as [|target first IH]; intros index.
  - simpl. rewrite Nat.add_0_r.
    by destruct (fanout _ _ _ _ _ _ _ index second) as [[tr staged] e].
  - change ((target :: first) ++ second) with (target :: (first ++ second)).
    rewrite !fanout_cons. simpl.
    destruct (deliver _ _ _ _ _ _ _ index target) as [[tr staged] [e|]]; [done|].
    simpl. rewrite IH. simpl.
    destruct (fanout _ _ _ _ _ _ _ (S index) first) as [[tr1 staged1] [e1|]]; [done|].
    simpl. replace (index + S (length first)) with (S index + length first) by lia.
    by rewrite !app_assoc.
Qed.

Lemma fanout_send_inv env config sConfig session rows quoteUser finalText
    targetConfigs index sid ch payload :
  In (Send sid ch payload)
     (fanout env config sConfig session rows quoteUser finalText index targetConfigs).1.1 →
  ∃ target, In target targetConfigs
            ∧ sid = targetSid target ∧ ch = RuleTarget.channelId target
            ∧ unavailable env target = false
            ∧ payload_for sConfig session rows quoteUser finalText target = Ok payload.
Proof.
  revert index. induction targetConfigs as [|target rest IH]; intros index; [done|].
  rewrite fanout_cons. simpl.
  assert (Hhere : In (Send sid ch payload)
                     (deliver env config sConfig session rows quoteUser finalText
                              index target).1.1 →
                  ∃ t, In t (target :: rest)
                       ∧ sid = targetSid t ∧ ch = RuleTarget.channelId t
                       ∧ unavailable env t = false
                       ∧ payload_for sConfig session rows quoteUser finalText t = Ok payload).
  { intros Hin. apply deliver_send_inv in Hin. exists target. split; [by left|done]. }
  destruct (deliver _ _ _ _ _ _ _ index target).2; [done|]. simpl.
  rewrite in_app_iff. intros [Hin|Hin]; [by apply Hhere|].
  destruct (IH _ Hin) as (t & Ht & Hrest). exists t. split; [by right|done].
Qed.

Lemma fanout_staged_inv env config sConfig session rows quoteUser finalText
    targetConfigs index r :
  In r (fanout env config sConfig session rows quoteUser finalText index targetConfigs).1.2 →
  ∃ target msgId payload,
    In target targetConfigs
    ∧ unavailable env target = false
    ∧ r = sentRow env session target msgId
    ∧ In (Send (targetSid target) (RuleTarget.channelId target) payload)
         (fanout env config sConfig session rows quoteUser finalText index
                 targetConfigs).1.1.
Proof.
  revert index. induction targetConfigs as [|target rest IH]; intros index; [done|].
  rewrite fanout_cons. simpl.
  destruct (deliver _ _ _ _ _ _ _ index target) as [[tr staged] err] eqn:Hd.
  assert (Hhere : In r staged →
                  unavailable env target = false
                  ∧ (∃ msgId, r = sentRow env session target msgId)
                  ∧ ∃ payload,
                      In (Send (targetSid target) (RuleTarget.channelId target) payload) tr).
  { intros Hin.
    pose proof (deliver_staged_inv env config sConfig session rows quoteUser finalText
                  index target r) as Hinv.
    rewrite Hd in Hinv. by apply Hinv. }
  destruct err as [e|]; simpl.
  - intros Hin. destruct (Hhere Hin) as (Hu & [msgId ->] & payload & Hs).
    exists target, msgId, payload. split; [by left|done].
  - rewrite in_app_iff. intros [Hin|Hin].
    + destruct (Hhere Hin) as (Hu & [msgId ->] & payload & Hs).
      exists target, msgId, payload. split; [by left|]. split; [done|]. split; [done|].
      apply in_app_iff. by left.
    + destruct (IH _ Hin) as (t & msgId & payload & Ht & Hu & -> & Hs).
      exists t, msgId, payload. split; [by right|]. split; [done|]. split; [done|].
      apply in_app_iff. by right.
Qed.

Lemma filter_app_nil {A} (p : A → bool) (l1 l2 : list A) :
  List.filter p l1 = [] → List.filter p l2 = [] → List.filter p (l1 ++ l2) = [].
Proof. intros H1 H2. by rewrite List.filter_app, H1, H2. Qed.

Lemma fanout_no_upsert env config sConfig session rows quoteUser finalText
    targetConfigs index :
  List.filter is_upsert
    (fanout env config sConfig session rows quoteUser finalText index targetConfigs).1.1
  = [].
Proof.
  revert index. induction targetConfigs as [|target rest IH]; intros index; [done|].
  rewrite fanout_cons. simpl.
  pose proof (deliver_no_upsert env config sConfig session rows quoteUser finalText
                index target) as Hd.
  destruct (deliver _ _ _ _ _ _ _ index target).2; [done|]. simpl.
  by apply filter_app_nil.
Qed.

Lemma logged_no_upsert (logged : list effect) :
  Forall (λ e, e = Warn CensorUnreachable) logged → List.filter is_upsert logged = [].
Proof. induction 1 as [|e l -> _ IH]; [done|]. simpl. exact IH. Qed.

Lemma logged_no_send (logged : list effect) sid ch payload :
  Forall (λ e, e = Warn CensorUnreachable) logged → ¬ In (Send sid ch payload) logged.
Proof.
  intros Hlog Hin. rewrite Forall_forall in Hlog.
  apply list_elem_of_In, Hlog in Hin. discriminate.
Qed.

(** The trace of a run that got past moderation. *)
Lemma dispatch_trace env config sConfig targetConfigs session rows quoteUser
    logged finalText :
  let f := fanout env config sConfig session rows quoteUser finalText 0 targetConfigs in
  trace_of (dispatch env config sConfig targetConfigs session rows quoteUser
                     logged finalText)
  = logged ++ f.1.1
    ++ match f.2 with
       | Some _ => []
       | None => if (length f.1.2 =? 0)%nat then [] else [Upsert f.1.2]
       end.
Proof.
  unfold dispatch.
  destruct (fanout _ _ _ _ _ _ _ 0 targetConfigs) as [[tr staged] [e|]]; simpl; [|done].
  by rewrite app_nil_r.
Qed.

Section Runs.
Context `{RegExpEngine}.

(** A run leaves no trace, or it got as far as the moderation call. *)
Lemma listener_cases env config sConfig targetConfigs session :
  trace_of (listener env config sConfig targetConfigs session) = []
  ∨ ∃ rows quoteUser, reaches_moderation env sConfig session rows quoteUser.
Proof.
  unfold listener, reaches_moderation.
  destruct (blocked _ _) as [[]|e]; [by left| |by left].
  destruct (quote_stage env sConfig session) as [[|rows quoteUser]|e]; [by left| |by left].
  destruct (trim_is_empty _) eqn:He; [by left|].
  right. by exists rows, quoteUser.
Qed.

(** X6. Whatever is sent goes to a target of the rule whose bot is
    connected and online, on the channel configured for that target:
    the listener never sends anywhere else. *)
Theorem sends_reach_only_online_targets env config sConfig targetConfigs session
    sid ch payload :
  In (Send sid ch payload) (trace_of (listener env config sConfig targetConfigs session)) →
  ∃ target bot,
    In target targetConfigs
    ∧ sid = targetSid target
    ∧ ch = RuleTarget.channelId target
    ∧ Env.bots env !! sid = Some bot
    ∧ Bot.status bot = ONLINE.
Proof.
  destruct (listener_cases env config sConfig targetConfigs session)
    as [->|(rows & quoteUser & Hreach)]; [done|].
  rewrite (listener_moderates _ _ _ _ _ _ _ Hreach). simpl.
  rewrite dispatch_trace. simpl. rewrite !in_app_iff. intros [Hin|[Hin|Hin]].
  - by apply logged_no_send in Hin; [|apply moderate_logged].
  - apply fanout_send_inv in Hin as (target & Ht & -> & -> & Hu & _).
    unfold unavailable in Hu.
    destruct (Env.bots env !! targetSid target) as [bot|] eqn:Hbot; [|done].
    exists target, bot. repeat split; try done.
    apply negb_false_iff in Hu. by destruct (Bot.status bot).
  - destruct (fanout _ _ _ _ _ _ _ _ _).2; [done|].
    destruct (length _ =? 0)%nat; simpl in Hin; intuition discriminate.
Qed.
End Runs.

(** ** What is sent and what is recorded *)

Lemma prefix_settled sConfig session target :
  settled (prefix sConfig session target) = true.
Proof. unfold prefix. by destruct (_ && _). Qed.

Lemma payload_settled sConfig session rows quoteUser finalText target payload :
  payload_for sConfig session rows quoteUser finalText target = Ok payload →
  forallb settled payload = true.
Proof.
  pose proof (prefix_settled sConfig session target) as Hp.
  assert (Ht : ∀ elements, forallb settled (transform elements ∅) = true).
  { intros elements. unfold transform, h_transform.
    apply forallb_flat_map, Forall_forall. intros e _. apply transform_with_settles. }
  unfold payload_for.
  destruct (Message.quote _) as [quote|]; [|intros [= <-]; simpl; by rewrite Hp].
  destruct quoteUser as [qu|]; [|done].
  destruct (JS.truthy (quoteId _ _ _ _)).
  - destruct (JS.seq _ "author"); intros [= <-]; simpl; by rewrite Hp.
  - destruct (JS.truthy (_ ≫= _)).
    + intros [= <-]. cbn [app forallb]. rewrite !forallb_app, Ht.
      cbn [forallb]. by rewrite Hp.
    + destruct (Quote.user quote); [|done]. intros [= <-].
      cbn [app forallb]. rewrite !forallb_app, Ht. cbn [forallb]. by rewrite Hp.
Qed.

Section Records.
Context `{RegExpEngine}.

(** X7. No payload sent by the listener holds an image, a mention, a face
    or an audio element, at any depth, be it in the relayed text or in the
    textual rendering of a quoted message. *)
Theorem payloads_carry_no_media env config sConfig targetConfigs session
    sid ch payload :
  In (Send sid ch payload) (trace_of (listener env config sConfig targetConfigs session)) →
  forallb settled payload = true.
Proof.
  destruct (listener_cases env config sConfig targetConfigs session)
    as [->|(rows & quoteUser & Hreach)]; [done|].
  rewrite (listener_moderates _ _ _ _ _ _ _ Hreach). simpl.
  rewrite dispatch_trace. simpl. rewrite !in_app_iff. intros [Hin|[Hin|Hin]].
  - by apply logged_no_send in Hin; [|apply moderate_logged].
  - apply fanout_send_inv in Hin as (target & _ & _ & _ & _ & Hp).
    by eapply payload_settled.
  - destruct (fanout _ _ _ _ _ _ _ _ _).2; [done|].
    destruct (length _ =? 0)%nat; simpl in Hin; intuition discriminate.
Qed.

(** X8. The records written by a run: there is at most one upsert, it is
    never empty, and each of its rows has the inbound message, its
    instance and its channel as source side and, as target side, the
    instance and channel of a target of the rule to which a send was
    made in this run. *)
Theorem upsert_rows_invariant env config sConfig targetConfigs session :
  let o := listener env config sConfig targetConfigs session in
  let event := Session.event session in
  (length (upserts o) ≤ 1)%nat
  ∧ ∀ sentRows, In (Upsert sentRows) (trace_of o) →
      sentRows ≠ []
      ∧ ∀ r, In r sentRows →
          Sent.from r = Message.id (Event.message event)
          ∧ Sent.from_sid r = Session.sid session
          ∧ Sent.from_channel_id r = Event.channel_id event
          ∧ ∃ target payload,
              In target targetConfigs
              ∧ Sent.to_sid r = targetSid target
              ∧ Sent.to_channel_id r = RuleTarget.channelId target
              ∧ In (Send (targetSid target) (RuleTarget.channelId target) payload)
                   (trace_of o).
Proof.
  intros o event. subst o. unfold upserts.
  destruct (listener_cases env config sConfig targetConfigs session)
    as [->|(rows & quoteUser & Hreach)]; [by split; [simpl; lia|]|].
  rewrite (listener_moderates _ _ _ _ _ _ _ Hreach). simpl.
  set (plain := plainText (filteredElements sConfig session)).
  set (m := moderate plain _).
  rewrite dispatch_trace. simpl.
  pose proof (moderate_logged plain
                (Env.fetch env (Session.userId session)
                           (Event.channel_id (Session.event session)) plain)) as Hlog.
  fold m in Hlog.
  pose proof (fanout_no_upsert env config sConfig session rows quoteUser m.1
                targetConfigs 0) as Hnone.
  pose proof (fanout_staged_inv env config sConfig session rows quoteUser m.1
                targetConfigs 0) as Hstaged.
  destruct (fanout _ _ _ _ _ _ _ 0 targetConfigs) as [[tr staged] err].
  simpl in *. split.
  - rewrite !List.filter_app, (logged_no_upsert _ Hlog), Hnone. simpl.
    destruct err; [simpl; lia|]. destruct (length staged =? 0)%nat; simpl; lia.
  - intros sentRows. rewrite !in_app_iff. intros [Hin|[Hin|Hin]].
    + rewrite Forall_forall in Hlog. apply list_elem_of_In, Hlog in Hin. discriminate.
    + assert (Hf : In (Upsert sentRows) (List.filter is_upsert tr)).
      { apply filter_In. by split. }
      rewrite Hnone in Hf. destruct Hf.
    + destruct err; [done|].
      destruct (length staged =? 0)%nat eqn:Hlen; [done|].
      destruct Hin as [[= <-]|[]]. split.
      * intros ->. discriminate.
      * intros r Hr. destruct (Hstaged r Hr) as (t & msgId & payload & Ht & _ & -> & Hs).
        repeat split; try done.
        exists t, payload. repeat split; try done.
        apply in_app_iff. right. apply in_app_iff. by left.
Qed.

(** X9. A run that ends with an exception writes no record, also for the
    sends it made before the exception. *)
Theorem throw_writes_no_record env config sConfig targetConfigs session tr e :
  listener env config sConfig targetConfigs session = Threw tr e →
  List.filter is_upsert tr = [].
Proof.
  intros Ho.
  assert (Htr : trace_of (listener env config sConfig targetConfigs session) = tr)
    by (by rewrite Ho).
  destruct (listener_cases env config sConfig targetConfigs session)
    as [Hnil|(rows & quoteUser & Hreach)]; [by rewrite <- Htr, Hnil|].
  rewrite (listener_moderates _ _ _ _ _ _ _ Hreach) in Ho. simpl in Ho.
  unfold dispatch in Ho.
  pose proof (moderate_logged (plainText (filteredElements sConfig session))
                (Env.fetch env (Session.userId session)
                           (Event.channel_id (Session.event session))
                           (plainText (filteredElements sConfig session)))) as Hlog.
  match type of Ho with
  | context [fanout ?a ?b ?c ?d ?e0 ?f ?g 0 ?l] =>
      pose proof (fanout_no_upsert a b c d e0 f g l 0) as Hnone;
      destruct (fanout a b c d e0 f g 0 l) as [[tr' staged] [e'|]]
  end; [|done].
  injection Ho as <- _. simpl in Hnone.
  apply filter_app_nil; [by apply logged_no_upsert|done].
Qed.
End Records.

(** ** Unavailable targets and pacing *)

(** X10. When no target of the rule has a bot that is online, the loop
    logs one warning per target, in order, and nothing else: no delay, no
    send, no row; the run then ends without an upsert. *)
Theorem all_unavailable_only_warns env config sConfig session rows quoteUser
    logged finalText (targetConfigs : list RuleTarget.t) :
  (∀ target, In target targetConfigs → unavailable env target = true) →
  (∀ index,
      fanout env config sConfig session rows quoteUser finalText index targetConfigs
      = (map (skip_warning env) targetConfigs, [], None))
  ∧ dispatch env config sConfig targetConfigs session rows quoteUser logged finalText
    = Completed (logged ++ map (skip_warning env) targetConfigs).
Proof.
  intros Hall.
  assert (Hf : ∀ index,
    fanout env config sConfig session rows quoteUser finalText index targetConfigs
    = (map (skip_warning env) targetConfigs, [], None)).
  { induction targetConfigs as [|target rest IH]; intros index; [done|].
    rewrite fanout_cons, deliver_eq, (Hall target) by (by left). simpl.
    rewrite IH; [done|]. intros t Ht. apply Hall. by right. }
  split; [exact Hf|]. unfold dispatch. rewrite Hf. simpl. by rewrite app_nil_r.
Qed.

(** X11. The pacing delay goes by the position in the rule, not by the
    number of sends made: when the first target is skipped, the send to
    the second one, the first of the run, still waits for the delay of
    its platform. *)
Theorem skipped_first_target_keeps_delay env config sConfig session rows quoteUser
    finalText A B rest payloadB :
  unavailable env A = true →
  unavailable env B = false →
  payload_for sConfig session rows quoteUser finalText B = Ok payloadB →
  ∃ tail,
    (fanout env config sConfig session rows quoteUser finalText 0 (A :: B :: rest)).1.1
    = skip_warning env A
      :: Sleep (default 200%Z (Config.delay config !! RuleTarget.platform B))
      :: Send (targetSid B) (RuleTarget.channelId B) payloadB
      :: tail.
Proof.
  intros HA HB Hp. rewrite !fanout_cons, !deliver_eq, HA, HB, Hp. simpl.
  by eexists.
Qed.

(** ** Quotes *)

(** X12. The other direction of the correlation.  On an endpoint that is
    not quote-only, let a reply quote a message written by somebody other
    than the bot, and let the table hold a record from that message on
    this channel to a target of the rule.  If message ids are not empty,
    the payload for that target carries a structural quote of the target
    message of such a record (after the author marker if there is one,
    first otherwise). *)
Theorem reply_to_original_quotes_relayed env sConfig session quote quoteUser
    target finalText r :
  let event := Session.event session in
  Message.quote (Event.message event) = Some quote →
  quote_author env session quote = Ok quoteUser →
  Event.selfId event ≠ User.id quoteUser →
  RuleSource.onlyQuote sConfig = false →
  In r (Env.database env) →
  Sent.from r = Quote.id quote →
  Sent.from_sid r = Session.sid session →
  Sent.from_channel_id r = Event.channel_id event →
  Sent.to_sid r = targetSid target →
  Sent.to_channel_id r = RuleTarget.channelId target →
  (∀ r', In r' (Env.database env) → Sent.to r' ≠ "") →
  ∃ r' rows,
    quote_stage env sConfig session = Ok (QuoteRows rows (Some quoteUser))
    ∧ In r' (Env.database env)
    ∧ Sent.from r' = Quote.id quote
    ∧ Sent.from_sid r' = Session.sid session
    ∧ Sent.from_channel_id r' = Event.channel_id event
    ∧ Sent.to_sid r' = targetSid target
    ∧ Sent.to_channel_id r' = RuleTarget.channelId target
    ∧ payload_for sConfig session rows (Some quoteUser) finalText target
      = Ok (let pfx := prefix sConfig session target in
            if JS.seq (type pfx) "author"
            then [pfx; h_quote (Sent.to r'); h_text finalText]
            else [h_quote (Sent.to r'); pfx; h_text finalText]).
Proof.
  intros event Hq Hu Hself Honly Hin Hfrom Hsid Hch Htsid Htch Hids. subst event.
  assert (Hrow : In r (rows_from env session quote)) by (by apply rows_from_In).
  apply seq_false in Hself.
  assert (Hid : ∃ r', In r' (rows_from env session quote)
                      ∧ Sent.to_sid r' = targetSid target
                      ∧ Sent.to_channel_id r' = RuleTarget.channelId target
                      ∧ quoteId (Session.event session) quoteUser
                                (rows_from env session quote) target
                        = Some (Sent.to r')).
  { unfold quoteId. rewrite Hself.
    destruct (List.find _ (rows_from env session quote)) as [r'|] eqn:Hfind.
    - apply find_some in Hfind as [Hin' [Hs Hc]%andb_true_iff].
      apply seq_true in Hs, Hc. by exists r'.
    - apply (find_none _ _ Hfind) in Hrow. simpl in Hrow.
      apply andb_false_iff in Hrow as [Hs|Hc].
      + by apply seq_false in Hs.
      + by apply seq_false in Hc. }
  destruct Hid as (r' & Hin' & Hs' & Hc' & Hid).
  apply rows_from_In in Hin' as (Hdb' & Hfrom' & Hsid' & Hch').
  exists r', (rows_from env session quote).
  split; [|repeat (split; [done|])].
  - unfold quote_stage. by rewrite Hq, Hu, Hself, Honly.
  - unfold payload_for. rewrite Hq, Hid. simpl.
    pose proof (Hids r' Hdb') as Hne. apply String.eqb_neq in Hne. rewrite Hne. simpl.
    by destruct (JS.seq (type (prefix sConfig session target)) "author").
Qed.

(** X13. What a run writes is what later runs look up.  A row staged for
    a send is found by the lookup made for a reply that quotes the sent
    message on the target's instance and channel, and by the lookup made
    for a reply that quotes the inbound message on the source's instance
    and channel; in the first case [rows.find] accepts it for a target
    that stands for the source endpoint. *)
Theorem staged_row_is_found env session target msgId env' :
  let r := sentRow env session target msgId in
  In r (Env.database env') →
  (∀ reply quote,
      Session.sid reply = targetSid target →
      Event.channel_id (Session.event reply) = RuleTarget.channelId target →
      Quote.id quote = msgId →
      In r (rows_to env' reply quote)
      ∧ ∀ back quoteUser,
          targetSid back = Session.sid session →
          RuleTarget.channelId back = Event.channel_id (Session.event session) →
          Event.selfId (Session.event reply) = User.id quoteUser →
          ∃ r', In r' (rows_to env' reply quote)
                ∧ Sent.from_sid r' = Session.sid session
                ∧ Sent.from_channel_id r' = Event.channel_id (Session.event session)
                ∧ quoteId (Session.event reply) quoteUser (rows_to env' reply quote) back
                  = Some (Sent.from r'))
  ∧ (∀ reply quote,
        Session.sid reply = Session.sid session →
        Event.channel_id (Session.event reply) = Event.channel_id (Session.event session) →
        Quote.id quote = Message.id (Event.message (Session.event session)) →
        In r (rows_from env' reply quote)).
Proof.
  intros r Hin. split.
  - intros reply quote Hsid Hch Hid.
    assert (Hrow : In r (rows_to env' reply quote)).
    { apply rows_to_In. subst r. simpl. by rewrite Hsid, Hch, Hid. }
    split; [exact Hrow|]. intros back quoteUser Hbsid Hbch Hself.
    destruct (quoteId_of_bot_quote (Session.event reply) quoteUser
                (rows_to env' reply quote) back r Hself Hrow)
      as (r' & Hin' & Hs' & Hc' & Hq'); [by rewrite Hbsid|by rewrite Hbch|].
    exists r'. rewrite <- Hbsid, <- Hbch. done.
  - intros reply quote Hsid Hch Hid.
    apply rows_from_In. subst r. simpl. by rewrite Hsid, Hch, Hid.
Qed.

Lemma quoteId_no_rows event quoteUser target : quoteId event quoteUser [] target = None.
Proof. unfold quoteId. by destruct (JS.seq _ _). Qed.

(** The payload of a reply for which the lookup found nothing. *)
Lemma payload_without_rows sConfig session quote quoteUser finalText target payload :
  Message.quote (Event.message (Session.event session)) = Some quote →
  payload_for sConfig session [] quoteUser finalText target = Ok payload →
  payload = fallback (quote_name quote) (default [] (Quote.elements quote))
            ++ [prefix sConfig session target; h_text finalText].
Proof.
  intros Hq. unfold payload_for, quote_name. rewrite Hq.
  destruct quoteUser as [qu|]; [|done]. rewrite quoteId_no_rows. simpl.
  destruct (JS.truthy (_ ≫= _)); [by intros [= <-]|].
  destruct (Quote.user quote); [by intros [= <-]|done].
Qed.

Lemma quote_stage_rows env sConfig session rows quoteUser quote :
  quote_stage env sConfig session = Ok (QuoteRows rows quoteUser) →
  Message.quote (Event.message (Session.event session)) = Some quote →
  rows = rows_to env session quote ∨ rows = rows_from env session quote.
Proof.
  unfold quote_stage. intros Hs Hq. rewrite Hq in Hs.
  destruct (quote_author env session quote) as [u|]; [|done].
  destruct (JS.seq _ _).
  - destruct (_ && _); [done|]. injection Hs as <- _. by left.
  - destruct (RuleSource.onlyQuote sConfig); [done|]. injection Hs as <- _. by right.
Qed.

Lemma deliver_no_censor_warning env config sConfig session rows quoteUser finalText
    index target :
  ¬ In (Warn CensorUnreachable)
       (deliver env config sConfig session rows quoteUser finalText index target).1.1.
Proof.
  rewrite deliver_eq. unfold skip_warning, pace.
  destruct (unavailable env target); simpl.
  - destruct (Env.bots env !! _); intuition discriminate.
  - destruct (payload_for _ _ _ _ _ _) as [p|e]; simpl;
      destruct (index =? 0)%nat; simpl;
      try destruct (match Env.bots env !! _ with Some _ => _ | None => _ end);
      simpl; intuition discriminate.
Qed.

Lemma fanout_no_censor_warning env config sConfig session rows quoteUser finalText
    targetConfigs index :
  ¬ In (Warn CensorUnreachable)
       (fanout env config sConfig session rows quoteUser finalText index targetConfigs).1.1.
Proof.
  revert index. induction targetConfigs as [|target rest IH]; intros index; [by intros []|].
  rewrite fanout_cons. simpl.
  pose proof (deliver_no_censor_warning env config sConfig session rows quoteUser
                finalText index target) as Hd.
  destruct (deliver _ _ _ _ _ _ _ index target).2; [done|]. simpl.
  rewrite in_app_iff. intros [Hin|Hin]; [done|]. by apply IH in Hin.
Qed.

Section Replies.
Context `{RegExpEngine}.

(** X14. A reply whose quoted message has no record on this channel, on
    either side of the table, is relayed with the quotation written out:
    every payload sent is the text [Re <name> ⌈], the transformed elements
    of the quoted message, the text [⌋] with a line break, then the prefix
    and the relayed text. *)
Theorem unknown_quote_is_written_out env config sConfig targetConfigs session
    quote sid ch payload :
  Message.quote (Event.message (Session.event session)) = Some quote →
  rows_to env session quote = [] →
  rows_from env session quote = [] →
  In (Send sid ch payload) (trace_of (listener env config sConfig targetConfigs session)) →
  ∃ target finalText,
    In target targetConfigs
    ∧ sid = targetSid target
    ∧ payload = [h_text ("Re " +:+ JS.interp (quote_name quote) +:+ " ⌈")]
                ++ transform (default [] (Quote.elements quote)) ∅
                ++ [h_text ("⌋" +:+ LF); prefix sConfig session target; h_text finalText].
Proof.
  intros Hq Hto Hfrom.
  destruct (listener_cases env config sConfig targetConfigs session)
    as [->|(rows & quoteUser & Hreach)]; [done|].
  rewrite (listener_moderates _ _ _ _ _ _ _ Hreach). simpl.
  rewrite dispatch_trace. simpl. rewrite !in_app_iff. intros [Hin|[Hin|Hin]].
  - by apply logged_no_send in Hin; [|apply moderate_logged].
  - assert (Hrows : rows = []).
    { destruct Hreach as (_ & Hstage & _).
      destruct (quote_stage_rows _ _ _ _ _ _ Hstage Hq) as [->| ->]; done. }
    subst rows.
    apply fanout_send_inv in Hin as (target & Ht & -> & _ & _ & Hp).
    apply (payload_without_rows _ _ quote) in Hp; [|done].
    eexists target, _. split; [done|]. split; [done|].
    rewrite Hp. unfold fallback. by rewrite <- !app_assoc.
  - destruct (fanout _ _ _ _ _ _ _ _ _).2; [done|].
    destruct (length _ =? 0)%nat; simpl in Hin; intuition discriminate.
Qed.

(** ** Moderation, beyond failure *)

(** X15. Of the ways the moderation call can fail, only a rejected or
    aborted [fetch] is logged: for a message that reaches the call, the
    warning is in the trace exactly in these two cases, and a response
    with another status or with a body that is not JSON leaves no log. *)
Theorem moderation_warns_only_on_reject env config sConfig targetConfigs session
    rows quoteUser :
  reaches_moderation env sConfig session rows quoteUser →
  let r := Env.fetch env (Session.userId session)
                     (Event.channel_id (Session.event session))
                     (plainText (filteredElements sConfig session)) in
  In (Warn CensorUnreachable) (trace_of (listener env config sConfig targetConfigs session))
  ↔ r = FetchRejected ∨ r = FetchAborted.
Proof.
  intros Hreach r. rewrite (listener_moderates _ _ _ _ _ _ _ Hreach). simpl.
  fold r. rewrite dispatch_trace. simpl. rewrite !in_app_iff. split.
  - intros [Hin|[Hin|Hin]].
    + destruct r as [| |status [data|]]; [by left|by right|..]; simpl in Hin.
      * destruct (response_ok status); [|done].
        destruct (json_truthy data); [|done].
        by destruct (json_context data) as [[]|].
      * by destruct (response_ok status).
    + by apply fanout_no_censor_warning in Hin.
    + destruct (fanout _ _ _ _ _ _ _ _ _).2; [done|].
      destruct (length _ =? 0)%nat; simpl in Hin; intuition discriminate.
  - intros [-> | ->]; left; by left.
Qed.

(** X16. The text returned by the moderation service is relayed as it
    is: after a 2xx response whose JSON object holds a string [context],
    the run is the fan-out of that string, with nothing logged, and the
    string is not tested for emptiness again. *)
Theorem moderation_replacement_is_sent env config sConfig targetConfigs session
    rows quoteUser status fields context :
  reaches_moderation env sConfig session rows quoteUser →
  Env.fetch env (Session.userId session) (Event.channel_id (Session.event session))
            (plainText (filteredElements sConfig session))
    = FetchResponse status (Some (JObj fields)) →
  response_ok status = true →
  json_field "context" fields = Some (JStr context) →
  listener env config sConfig targetConfigs session
    = dispatch env config sConfig targetConfigs session rows quoteUser [] context.
Proof.
  intros Hreach Hfetch Hok Hctx.
  rewrite (listener_moderates _ _ _ _ _ _ _ Hreach). simpl.
  rewrite Hfetch. simpl. by rewrite Hok, Hctx.
Qed.
End Replies.

(** ** Blocking words *)

Section Blocking.
Context `{RegExpEngine}.

(** The loop over the blocking words, in terms of [hit]. *)
Lemma blocked_passes_iff (words : list string) (elements : list h) :
  blocked words elements = Ok false ↔ Forall (lets_through elements) words.
Proof.
  induction words as [|w ws IH]; simpl.
  - split; [constructor|done].
  - destruct (RegExp_new w) as [reg|] eqn:Hreg.
    + destruct (hit reg elements) eqn:Hhit.
      * split; [done|]. intros Hall. inversion Hall as [|? ? (reg' & Hreg' & Hhit') _].
        rewrite Hreg in Hreg'. injection Hreg' as <-. congruence.
      * rewrite IH. split.
        -- intros Hall. constructor; [by exists reg|done].
        -- intros Hall. by inversion Hall.
    + split; [done|]. intros Hall. inversion Hall as [|? ? (reg' & Hreg' & _) _].
      congruence.
Qed.

(** A regular expression hits exactly when it matches the content of an
    element of the sequence whose kind is text. *)
Lemma hit_false_iff (reg : regexp) (elements : list h) :
  hit reg elements = false ↔
  ∀ v, In v elements → type v = "text" →
       RegExp_test reg (JS.interp (attrs v !! "content")) = false.
Proof.
  unfold hit. split.
  - intros Hnone v Hv Ht.
    destruct (RegExp_test reg (JS.interp (attrs v !! "content"))) eqn:Htest; [|done].
    assert (Hex : existsb (λ v, JS.seq (type v) "text"
                              && RegExp_test reg (JS.interp (attrs v !! "content")))
                          elements = true).
    { apply existsb_exists. exists v. split; [done|].
      apply andb_true_iff. split; [by apply seq_true|done]. }
    congruence.
  - intros Hall.
    destruct (existsb _ elements) eqn:Hex; [|done].
    apply existsb_exists in Hex as (v & Hv & [Ht Htest]%andb_true_iff).
    apply seq_true in Ht. rewrite (Hall v Hv Ht) in Htest. discriminate.
Qed.

(** X17. A message passes the blocking words exactly when every word
    compiles to a regular expression that matches the content of none of
    the top-level elements of kind text; elements of another kind are not
    tested, and with no blocking word every message passes. *)
Theorem blocked_passes_exactly (words : list string) (elements : list h) :
  blocked words elements = Ok false ↔
  ∀ word, In word words →
    ∃ reg, RegExp_new word = Some reg
           ∧ ∀ v, In v elements → type v = "text" →
                  RegExp_test reg (JS.interp (attrs v !! "content")) = false.
Proof.
  rewrite blocked_passes_iff, Forall_forall. unfold lets_through. split.
  - intros Hall word Hword.
    destruct (Hall word) as (reg & Hreg & Hhit); [by apply list_elem_of_In|].
    exists reg. split; [done|]. by apply hit_false_iff.
  - intros Hall word Hword.
    destruct (Hall word) as (reg & Hreg & Hnone); [by apply list_elem_of_In|].
    exists reg. split; [done|]. by apply hit_false_iff.
Qed.

(** X18. A blocking word that is not a regular expression makes the
    listener throw on every message that the words before it let
    through, before anything is looked up, sent or written. *)
Theorem invalid_blocking_word_throws env config sConfig targetConfigs session
    before word after :
  RuleSource.blockingWords sConfig = before ++ word :: after →
  Forall (lets_through (Session.elements session)) before →
  RegExp_new word = None →
  listener env config sConfig targetConfigs session = Threw [] SyntaxError.
Proof.
  intros Hwords Hbefore Hword. unfold listener. rewrite Hwords.
  assert (Hb : blocked (before ++ word :: after) (Session.elements session)
               = Throw SyntaxError).
  { clear Hwords. induction Hbefore as [|w ws (reg & Hreg & Hhit) _ IH]; simpl.
    - by rewrite Hword.
    - by rewrite Hreg, Hhit. }
  by rewrite Hb.
Qed.

(** ** Messages without text *)

Lemma join_all_empty (parts : list string) :
  Forall (λ s, s = "") parts → join "" parts = "".
Proof.
  induction 1 as [|s parts -> _ IH]; [done|]. by rewrite join_empty_cons, IH.
Qed.

Lemma body_transform_no_text sConfig event (e : h) :
  textual (type e) = false →
  Forall (λ node, text_content node = "")
         (transform_with (visit (body_rules sConfig event ∪ default_rules)) e).
Proof.
  destruct e as [t a cs]. simpl. unfold textual.
  intros [[[Htx Hat]%orb_false_iff Hf]%orb_false_iff Hu]%orb_false_iff.
  unfold visit. rewrite body_rule_for, Hat.
  destruct (JS.seq t "image") eqn:Hi.
  - apply seq_true in Hi. subst t. constructor.
  - assert (Hv : visited t = false) by (unfold visited; by rewrite Hi, Hat, Hf, Hu).
    rewrite (default_rule_unvisited t Hv). constructor; [|constructor].
    unfold text_content. simpl. by rewrite Htx.
Qed.

(** X19. Only top-level text, mentions, faces and audio make the relayed
    text.  Off Discord, a message none of whose top-level elements is of
    one of these kinds (images only, or text wrapped in another element)
    leaves no trace: nothing is sent and nothing is written. *)
Theorem no_textual_element_nothing_sent env config sConfig targetConfigs session :
  Forall (λ e, textual (type e) = false)
         (Message.elements (Event.message (Session.event session))) →
  Session.platform session ≠ "discord" →
  plainText (filteredElements sConfig session) = ""
  ∧ trace_of (listener env config sConfig targetConfigs session) = [].
Proof.
  intros Hnone Hplat.
  assert (Hplain : plainText (filteredElements sConfig session) = "").
  { unfold filteredElements. apply seq_false in Hplat. rewrite Hplat, app_nil_r.
    unfold plainText. apply join_all_empty.
    unfold transform, h_transform.
    induction Hnone as [|e es He _ IH]; [constructor|].
    simpl. rewrite map_app. apply Forall_app. split; [|exact IH].
    apply Forall_forall. intros s Hs.
    apply list_elem_of_In, in_map_iff in Hs as (node & <- & Hnode).
    pose proof (body_transform_no_text sConfig (Session.event session) e He) as Hall.
    rewrite Forall_forall in Hall. apply Hall. by apply list_elem_of_In. }
  split; [exact Hplain|].
  unfold listener. destruct (blocked _ _) as [[]|]; try done.
  destruct (quote_stage env sConfig session) as [[|rows qu]|]; try done.
  by rewrite Hplain.
Qed.

(** X20. The way through quote-only mode: on a quote-only endpoint a
    reply that quotes a message of the bot for which the table holds a
    record, on its target side, for this instance and channel, passes
    the quote stage with the records found. *)
Theorem quote_only_lets_correlated_reply_through env sConfig session quote quoteUser r :
  let event := Session.event session in
  RuleSource.onlyQuote sConfig = true →
  Message.quote (Event.message event) = Some quote →
  quote_author env session quote = Ok quoteUser →
  Event.selfId event = User.id quoteUser →
  In r (Env.database env) →
  Sent.to r = Quote.id quote →
  Sent.to_sid r = Session.sid session →
  Sent.to_channel_id r = Event.channel_id event →
  quote_stage env sConfig session
    = Ok (QuoteRows (rows_to env session quote) (Some quoteUser))
  ∧ In r (rows_to env session quote).
Proof.
  intros event Honly Hq Hu Hself Hin Hto Hsid Hch. subst event.
  assert (Hrow : In r (rows_to env session quote)) by (by apply rows_to_In).
  split; [|exact Hrow].
  unfold quote_stage. rewrite Hq, Hu, Honly.
  apply seq_true in Hself. rewrite Hself.
  destruct (rows_to env session quote); [destruct Hrow|done].
Qed.
End Blocking.

(** ** Rule resolution *)

Lemma length_omap_le {A B} (f : A → option B) (l : list A) :
  (length (omap f l) ≤ length l)%nat.
Proof.
  induction l as [|x l IH]; [done|]. simpl.
  destruct (f x); simpl; unfold omap in IH; lia.
Qed.

(** X21. A listener is registered for a rule exactly when its source is
    defined and at least one of its targets is defined and not disabled;
    it is then registered with that source and with the targets of the
    rule that are defined and not disabled, none of them disabled and at
    most as many as the rule lists. *)
Theorem binding_spec constants rule :
  (binding constants rule = None ↔
     Constants.sources constants !! Rule.source rule = None
     ∨ ∀ key targetConfig,
         In key (Rule.targets rule) →
         Constants.targets constants !! key = Some targetConfig →
         RuleTarget.disabled targetConfig = true)
  ∧ ∀ sConfig targetConfigs,
      binding constants rule = Some (sConfig, targetConfigs) →
      Constants.sources constants !! Rule.source rule = Some sConfig
      ∧ targetConfigs ≠ []
      ∧ (length targetConfigs ≤ length (Rule.targets rule))%nat
      ∧ ∀ targetConfig,
          In targetConfig targetConfigs ↔
          RuleTarget.disabled targetConfig = false
          ∧ ∃ key, In key (Rule.targets rule)
                   ∧ Constants.targets constants !! key = Some targetConfig.
Proof.
  assert (Hmem : ∀ targetConfig,
    In targetConfig (resolve_targets constants rule) ↔
    RuleTarget.disabled targetConfig = false
    ∧ ∃ key, In key (Rule.targets rule)
             ∧ Constants.targets constants !! key = Some targetConfig).
  { intros t. unfold resolve_targets.
    rewrite <- list_elem_of_In, list_elem_of_omap. split.
    - intros (key & Hkey & Hres).
      destruct (Constants.targets constants !! key) as [c|] eqn:Hc; [|done].
      destruct (RuleTarget.disabled c) eqn:Hd; [done|]. injection Hres as <-.
      split; [done|]. exists key. split; [by apply list_elem_of_In|done].
    - intros (Hd & key & Hkey & Hc). exists key.
      split; [by apply list_elem_of_In|]. by rewrite Hc, Hd. }
  assert (Hlen : (length (resolve_targets constants rule) ≤ length (Rule.targets rule))%nat).
  { apply length_omap_le. }
  unfold binding. split.
  - destruct (Constants.sources constants !! Rule.source rule) as [sConfig|];
      [|split; [by left|done]].
    destruct (resolve_targets constants rule) as [|t ts] eqn:Hres; simpl.
    + split; [|done]. intros _. right. intros key c Hkey Hc.
      destruct (RuleTarget.disabled c) eqn:Hd; [done|].
      assert (Hin : In c []) by (apply Hmem; eauto). destruct Hin.
    + split; [done|]. intros [Hs|Hall]; [done|]. exfalso.
      assert (Hin : In t (t :: ts)) by (by left).
      apply Hmem in Hin as (Hd & key & Hkey & Hc).
      rewrite (Hall key t Hkey Hc) in Hd. discriminate.
  - intros sConfig targetConfigs.
    destruct (Constants.sources constants !! Rule.source rule) as [s|]; [|done].
    destruct (resolve_targets constants rule) as [|t ts] eqn:Hres; simpl; [done|].
    intros [= <- <-]. split; [done|]. split; [done|]. split; [exact Hlen|].
    exact Hmem.
Qed.

(** ** White space *)

Lemma trim_is_empty_app_upto (n : nat) : ∀ a b : string,
  (String.length a ≤ n)%nat →
  trim_is_empty a = true → trim_is_empty (a +:+ b) = trim_is_empty b.
Proof.
  induction n as [|n IH]; intros a b Hlen Ha.
  - destruct a; [done|]. simpl in Hlen. lia.
  - destruct a as [|x r1]; [done|].
    change (String x r1 +:+ b) with (String x (r1 +:+ b)).
    simpl in Ha, Hlen. simpl. destruct (is_ws1 x).
    { apply IH; [lia|done]. }
    destruct r1 as [|y r2]; [done|].
    change (String y r2 +:+ b) with (String y (r2 +:+ b)).
    simpl in Hlen. simpl. destruct (is_ws2 x y).
    { apply IH; [lia|done]. }
    destruct r2 as [|z r3]; [done|].
    change (String z r3 +:+ b) with (String z (r3 +:+ b)).
    simpl in Hlen. simpl. destruct (is_ws3 x y z); [|done].
    apply IH; [lia|done].
Qed.

Lemma trim_is_empty_app (a b : string) :
  trim_is_empty a = true → trim_is_empty (a +:+ b) = trim_is_empty b.
Proof. by apply (trim_is_empty_app_upto (String.length a)). Qed.

Lemma body_transform_text sConfig event (t : string) a cs :
  t = "text" →
  ∃ cs', transform_with (visit (body_rules sConfig event ∪ default_rules)) (El t a cs)
         = [El t a cs'].
Proof.
  intros ->. simpl. unfold visit. rewrite body_rule_for. simpl.
  rewrite (default_rule_unvisited "text") by done. by eexists.
Qed.

Section Blank.
Context `{RegExpEngine}.

(** X22. Off Discord, a message made of text elements whose contents are
    white space throughout, or of no element at all, is not relayed: if
    it gets past the blocking words and the quote stage it is dropped as
    empty, and in any case nothing is sent or written. *)
Theorem blank_message_is_dropped env config sConfig targetConfigs session :
  Forall blank_text (Message.elements (Event.message (Session.event session))) →
  Session.platform session ≠ "discord" →
  trim_is_empty (plainText (filteredElements sConfig session)) = true
  ∧ trace_of (listener env config sConfig targetConfigs session) = []
  ∧ (∀ rows quoteUser,
       blocked (RuleSource.blockingWords sConfig) (Session.elements session) = Ok false →
       quote_stage env sConfig session = Ok (QuoteRows rows quoteUser) →
       listener env config sConfig targetConfigs session = Dropped EmptyText).
Proof.
  intros Hblank Hplat.
  assert (Hempty : trim_is_empty (plainText (filteredElements sConfig session)) = true).
  { assert (Hbody : trim_is_empty
                      (plainText
                         (flat_map
                            (transform_with
                               (visit (body_rules sConfig (Session.event session)
                                       ∪ default_rules)))
                            (Message.elements (Event.message (Session.event session)))))
                    = true).
    { induction Hblank as [|e es (Ht & content & Hc & Hws) _ IH]; [done|].
      cbn [flat_map]. rewrite plainText_app.
      destruct e as [t a cs]. simpl in Ht, Hc.
      destruct (body_transform_text sConfig (Session.event session) t a cs Ht)
        as [cs' ->].
      assert (Hone : plainText [El t a cs'] = content).
      { unfold plainText, text_content. simpl. by rewrite Ht, Hc. }
      rewrite Hone. by rewrite trim_is_empty_app. }
    unfold filteredElements. apply seq_false in Hplat. rewrite Hplat, app_nil_r.
    exact Hbody. }
  split; [exact Hempty|]. unfold listener. split.
  - destruct (blocked _ _) as [[]|]; try done.
    destruct (quote_stage env sConfig session) as [[|rows qu]|]; try done.
    by rewrite Hempty.
  - intros rows quoteUser -> ->. by rewrite Hempty.
Qed.

(** ** The connector is asked only when needed *)

Lemma fanout_with_getMessage env getMessage config sConfig session rows quoteUser
    finalText targetConfigs index :
  fanout (with_getMessage env getMessage) config sConfig session rows quoteUser
         finalText index targetConfigs
  = fanout env config sConfig session rows quoteUser finalText index targetConfigs.
Proof.
  revert index. induction targetConfigs as [|target rest IH]; intros index; [done|].
  simpl. rewrite IH. reflexivity.
Qed.

(** X23. The quoted message is fetched through the connector only when
    the event does not carry its author: for a message that is not a
    reply, or whose quote has its [user], the run is the same whatever
    [getMessage] would answer, a rejection included. *)
Theorem author_in_event_needs_no_fetch env getMessage config sConfig targetConfigs
    session :
  (∀ quote, Message.quote (Event.message (Session.event session)) = Some quote →
            is_Some (Quote.user quote)) →
  listener (with_getMessage env getMessage) config sConfig targetConfigs session
  = listener env config sConfig targetConfigs session.
Proof.
  intros Huser.
  assert (Hstage : quote_stage (with_getMessage env getMessage) sConfig session
                   = quote_stage env sConfig session).
  { unfold quote_stage.
    destruct (Message.quote _) as [quote|] eqn:Hq; [|done].
    destruct (Huser quote eq_refl) as [u Hu].
    unfold quote_author. by rewrite Hu. }
  unfold listener. rewrite Hstage.
  destruct (blocked _ _) as [[]|]; try done.
  destruct (quote_stage env sConfig session) as [[|rows qu]|]; try done.
  destruct (trim_is_empty _); [done|]. simpl.
  destruct (moderate _ _) as [finalText logged].
  unfold dispatch. by rewrite fanout_with_getMessage.
Qed.
End Blank.

Lemma bindings_app constants (rules1 rules2 : list Rule.t) :
  bindings constants (rules1 ++ rules2)
  = bindings constants rules1 ++ bindings constants rules2.
Proof. apply omap_app. Qed.

(** ** The further properties on the sample data *)

Lemma sends_reach_only_online_targets_witness :
  ∃ target bot,
    In target [Sample.qq]
    ∧ "qq:100" = targetSid target
    ∧ "c1" = RuleTarget.channelId target
    ∧ Env.bots Sample.env !! "qq:100" = Some bot
    ∧ Bot.status bot = ONLINE.
Proof.
  apply (sends_reach_only_online_targets Sample.env Sample.config
           (Sample.source_of false) [Sample.qq] Sample.reply "qq:100" "c1"
           [h_quote "m1"; h_text ("[DC - alice]" +:+ LF); h_text "hi"]).
  right. left. reflexivity.
Defined.

Lemma payloads_carry_no_media_witness :
  forallb settled [h_quote "m1"; h_text ("[DC - alice]" +:+ LF); h_text "hi"] = true.
Proof.
  apply (payloads_carry_no_media Sample.env Sample.config
           (Sample.source_of false) [Sample.qq] Sample.reply "qq:100" "c1").
  right. left. reflexivity.
Defined.

Lemma throw_writes_no_record_witness :
  listener ThrowSample.env Sample.config (Sample.source_of false) ThrowSample.targets
           ThrowSample.reply
  = Threw [Warn CensorUnreachable;
           Send "qq:100" "c1" [h_quote "m1"; h_text ("[DC - alice]" +:+ LF); h_text "hi"];
           Sleep 200] TypeError
  ∧ List.filter is_upsert
      [Warn CensorUnreachable;
       Send "qq:100" "c1" [h_quote "m1"; h_text ("[DC - alice]" +:+ LF); h_text "hi"];
       Sleep 200] = [].
Proof.
  split; [reflexivity|].
  apply (throw_writes_no_record ThrowSample.env Sample.config (Sample.source_of false)
           ThrowSample.targets ThrowSample.reply _ TypeError).
  reflexivity.
Defined.

Lemma all_unavailable_only_warns_witness :
  dispatch EmptySample.env Sample.config (Sample.source_of false)
           [Sample.qq; FanoutSample.kook] FanoutSample.message [] None [] "hi"
  = Completed [Warn (BotNotFound "qq:100"); Warn (BotNotFound "kook:1")].
Proof.
  destruct (all_unavailable_only_warns EmptySample.env Sample.config
              (Sample.source_of false) FanoutSample.message [] None [] "hi"
              [Sample.qq; FanoutSample.kook]) as [_ Hd].
  - intros target [<-|[<-|[]]]; reflexivity.
  - rewrite Hd. reflexivity.
Defined.

Lemma skipped_first_target_keeps_delay_witness :
  ∃ tail,
    (fanout FanoutSample.env FanoutSample.config (Sample.source_of false)
            FanoutSample.message [] None "hi" 0
            [FanoutSample.kook; FanoutSample.telegram]).1.1
    = Warn (BotNotFound "kook:1") :: Sleep 350
      :: Send "telegram:300" "g1" FanoutSample.payload :: tail.
Proof.
  apply (skipped_first_target_keeps_delay FanoutSample.env FanoutSample.config
           (Sample.source_of false) FanoutSample.message [] None "hi"
           FanoutSample.kook FanoutSample.telegram [] FanoutSample.payload);
    reflexivity.
Defined.

Lemma reply_to_original_quotes_relayed_witness :
  payload_for ForwardSample.source ForwardSample.reply [Sample.relay]
              (Some Sample.alice) "again" ForwardSample.discord
  = Ok [h_quote "t1"; h_text ("[QQ - alice]" +:+ LF); h_text "again"].
Proof.
  destruct (reply_to_original_quotes_relayed Sample.env ForwardSample.source
              ForwardSample.reply ForwardSample.quote Sample.alice
              ForwardSample.discord "again" Sample.relay)
    as (r' & rows & _ & _ & _ & _ & _ & _ & _ & _).
  - reflexivity.
  - reflexivity.
  - discriminate.
  - reflexivity.
  - simpl. auto.
  - reflexivity.
  - reflexivity.
  - reflexivity.
  - reflexivity.
  - reflexivity.
  - simpl. intros r0 [<-|[]]. discriminate.
  - reflexivity.
Defined.

Lemma staged_row_is_found_witness :
  In (sentRow Sample.env FanoutSample.message Sample.qq "n1")
     (rows_to (Sample.env_of ∅ [sentRow Sample.env FanoutSample.message Sample.qq "n1"]
                             None FetchRejected)
              (Sample.session_of "qq" "100" "c1" [h_text "re"]
                                 (Some (Sample.quote_of "n1" (Some Sample.bot_user))) [])
              (Sample.quote_of "n1" (Some Sample.bot_user))).
Proof.
  destruct (staged_row_is_found Sample.env FanoutSample.message Sample.qq "n1"
              (Sample.env_of ∅ [sentRow Sample.env FanoutSample.message Sample.qq "n1"]
                             None FetchRejected)) as [Hto _].
  - simpl. auto.
  - apply Hto; reflexivity.
Defined.

Lemma unknown_quote_is_written_out_witness :
  ∃ target finalText,
    In target [Sample.qq]
    ∧ "qq:100" = targetSid target
    ∧ [h_text "Re relay ⌈"; h_text "orig"; h_text ("⌋" +:+ LF);
       h_text ("[DC - alice]" +:+ LF); h_text "hi"]
      = [h_text ("Re " +:+ JS.interp (quote_name (Sample.quote_of "t1" (Some Sample.bot_user)))
                 +:+ " ⌈")]
        ++ transform (default [] (Quote.elements (Sample.quote_of "t1" (Some Sample.bot_user)))) ∅
        ++ [h_text ("⌋" +:+ LF); prefix (Sample.source_of false) Sample.reply target;
            h_text finalText].
Proof.
  apply (unknown_quote_is_written_out EmptySample.env_online Sample.config
           (Sample.source_of false) [Sample.qq] Sample.reply
           (Sample.quote_of "t1" (Some Sample.bot_user)) "qq:100" "c1").
  - reflexivity.
  - reflexivity.
  - reflexivity.
  - right. left. reflexivity.
Defined.

Lemma moderation_warns_only_on_reject_witness :
  In (Warn CensorUnreachable)
     (trace_of (listener Sample.env Sample.config (Sample.source_of false) [Sample.qq]
                         Sample.reply)).
Proof.
  apply (moderation_warns_only_on_reject Sample.env Sample.config (Sample.source_of false)
           [Sample.qq] Sample.reply [Sample.relay] (Some Sample.bot_user)).
  - repeat split.
  - left. reflexivity.
Defined.

Lemma moderation_replacement_is_sent_witness :
  listener ModerationSample.env Sample.config (Sample.source_of false) [Sample.qq]
           FanoutSample.message
  = Completed [Send "qq:100" "c1" [h_text ("[DC - alice]" +:+ LF); h_text ""];
               Upsert [sentRow ModerationSample.env FanoutSample.message Sample.qq "n1"]].
Proof.
  rewrite (moderation_replacement_is_sent ModerationSample.env Sample.config
             (Sample.source_of false) [Sample.qq] FanoutSample.message [] None
             200 [("context", JStr "")] "").
  - reflexivity.
  - repeat split.
  - reflexivity.
  - reflexivity.
  - reflexivity.
Defined.

Lemma invalid_blocking_word_throws_witness :
  listener Sample.env Sample.config EmptySample.source [Sample.qq] FanoutSample.message
  = Threw [] SyntaxError.
Proof.
  apply (invalid_blocking_word_throws Sample.env Sample.config EmptySample.source
           [Sample.qq] FanoutSample.message ["spam"] "(" []).
  - reflexivity.
  - constructor; [|constructor]. eexists. split; reflexivity.
  - reflexivity.
Defined.

Lemma no_textual_element_nothing_sent_witness :
  plainText (filteredElements ForwardSample.source EmptySample.wrapped) = ""
  ∧ trace_of (listener EmptySample.env_online Sample.config ForwardSample.source
                       [ForwardSample.discord] EmptySample.wrapped) = [].
Proof.
  apply (no_textual_element_nothing_sent EmptySample.env_online Sample.config
           ForwardSample.source [ForwardSample.discord] EmptySample.wrapped).
  - constructor; [reflexivity|constructor].
  - discriminate.
Defined.

Lemma quote_only_lets_correlated_reply_through_witness :
  quote_stage Sample.env (Sample.source_of true) Sample.reply
  = Ok (QuoteRows [Sample.relay] (Some Sample.bot_user)).
Proof.
  destruct (quote_only_lets_correlated_reply_through Sample.env (Sample.source_of true)
              Sample.reply (Sample.quote_of "t1" (Some Sample.bot_user))
              Sample.bot_user Sample.relay) as [Hstage _].
  - reflexivity.
  - reflexivity.
  - reflexivity.
  - reflexivity.
  - simpl. auto.
  - reflexivity.
  - reflexivity.
  - reflexivity.
  - rewrite Hstage. reflexivity.
Defined.

Lemma blank_message_is_dropped_witness :
  listener Sample.env Sample.config ForwardSample.source [ForwardSample.discord]
           (Sample.session_of "qq" "100" "c1" [h_text " "; h_text LF] None [])
  = Dropped EmptyText.
Proof.
  destruct (blank_message_is_dropped Sample.env Sample.config ForwardSample.source
              [ForwardSample.discord]
              (Sample.session_of "qq" "100" "c1" [h_text " "; h_text LF] None []))
    as (_ & _ & Hdrop).
  - constructor; [|constructor; [|constructor]]; (split; [reflexivity|]);
      eexists; split; reflexivity.
  - discriminate.
  - apply (Hdrop [] None); reflexivity.
Defined.

Lemma author_in_event_needs_no_fetch_witness :
  listener (with_getMessage Sample.env (λ _ _, Some None)) Sample.config
           (Sample.source_of false) [Sample.qq] Sample.reply
  = listener Sample.env Sample.config (Sample.source_of false) [Sample.qq] Sample.reply.
Proof.
  apply (author_in_event_needs_no_fetch Sample.env (λ _ _, Some None) Sample.config
           (Sample.source_of false) [Sample.qq] Sample.reply).
  intros quote [= <-]. by eexists.
Defined.

(** ** Moderation failure followed by the textual quote *)

Section FailedModeration.
Context `{RegExpEngine}.

(** C3. A message that reaches the moderation call with a failed POST
    does not always run to its end.  Let it be a reply whose quote carries
    neither its author nor a member nick, and let the first target of the
    rule be online and have no record to quote: the textual rendering of
    the quote reads [qUser.nick] of an absent [qUser] (line 290), and the
    listener throws after the moderation has fallen back, with nothing
    logged but the moderation warning and nothing sent. *)
Theorem failed_moderation_then_quote_throws env config sConfig targetConfigs session
    rows quoteUser quote target rest bot :
  reaches_moderation env sConfig session rows quoteUser →
  moderation_failed
    (Env.fetch env (Session.userId session) (Event.channel_id (Session.event session))
               (plainText (filteredElements sConfig session))) = true →
  Message.quote (Event.message (Session.event session)) = Some quote →
  Quote.user quote = None →
  JS.truthy (Quote.member quote ≫= Member.nick) = false →
  targetConfigs = target :: rest →
  Env.bots env !! targetSid target = Some bot →
  Bot.status bot = ONLINE →
  (∀ qu, quoteUser = Some qu →
         JS.truthy (quoteId (Session.event session) qu rows target) = false) →
  ∃ logged,
    listener env config sConfig targetConfigs session = Threw logged TypeError
    ∧ Forall (λ e, e = Warn CensorUnreachable) logged
    ∧ sends (listener env config sConfig targetConfigs session) = [].
Proof.
  intros Hreach Hfail Hq Huser Hnick -> Hbot Hon Hrow.
  set (plain := plainText (filteredElements sConfig session)).
  set (m := moderate plain
              (Env.fetch env (Session.userId session)
                         (Event.channel_id (Session.event session)) plain)).
  assert (Hlog : Forall (λ e, e = Warn CensorUnreachable) m.2) by apply moderate_logged.
  assert (Hp : payload_for sConfig session rows quoteUser m.1 target = Throw TypeError).
  { unfold payload_for. rewrite Hq. destruct quoteUser as [qu|]; [|done].
    rewrite (Hrow qu eq_refl), Hnick, Huser. done. }
  assert (Ho : listener env config sConfig (target :: rest) session = Threw m.2 TypeError).
  { rewrite (listener_moderates _ _ _ _ _ _ _ Hreach). simpl. fold plain. fold m.
    unfold dispatch. simpl. unfold deliver. rewrite Hbot, Hon, Hp. simpl.
    by rewrite app_nil_r. }
  exists m.2. split; [exact Ho|]. split; [exact Hlog|].
  unfold sends. rewrite Ho. simpl.
  clear -Hlog. induction Hlog as [|e l -> _ IH]; [done|]. exact IH.
Qed.
End FailedModeration.

Lemma failed_moderation_then_quote_throws_witness :
  listener (Sample.env_of {[ "qq:100" := Sample.bot_of ONLINE (Some ["n1"]) ]} []
                          (Some (Some Sample.alice)) FetchRejected)
           Sample.config (Sample.source_of false) [Sample.qq]
           (Sample.session_of "discord" "200" "c2" [h_text "hi"]
                              (Some (Sample.quote_of "t1" None)) [])
    = Threw [Warn CensorUnreachable] TypeError.
Proof.
  destruct (failed_moderation_then_quote_throws
              (Sample.env_of {[ "qq:100" := Sample.bot_of ONLINE (Some ["n1"]) ]} []
                             (Some (Some Sample.alice)) FetchRejected)
              Sample.config (Sample.source_of false) [Sample.qq]
              (Sample.session_of "discord" "200" "c2" [h_text "hi"]
                                 (Some (Sample.quote_of "t1" None)) [])
              [] (Some Sample.alice) (Sample.quote_of "t1" None) Sample.qq []
              (Sample.bot_of ONLINE (Some ["n1"])))
    as (logged & Ho & _ & _).
  - repeat split.
  - reflexivity.
  - reflexivity.
  - reflexivity.
  - reflexivity.
  - reflexivity.
  - reflexivity.
  - reflexivity.
  - intros qu [= <-]. reflexivity.
  - reflexivity.
Defined.
